(** * sqlc-dynamic-query-example: the statement parser and the query interceptor

    A shallow embedding of package [builder] (the parser of parse.go, the
    handle interface of db.go, the two interceptors [selector] and
    [selecter]) and of the per-query glue of package [tutorial].

    Go strings are byte sequences: a statement is a [list ascii].  The
    library functions the parser calls ([strings.TrimSpace], [strings.Split],
    [regexp.FindStringSubmatch], ...) are modelled on bytes, with the UTF-8
    sequences they single out written down explicitly. *)

From Stdlib Require Import String Ascii Bool Arith ZArith NArith Lia List.
From Stdlib Require Import DecimalString.
Import ListNotations.

Set Implicit Arguments.

(** ** Bytes and strings *)

Definition gostring := list ascii.

Definition str (s : string) : gostring := list_ascii_of_string s.

Definition chr (n : nat) : ascii := ascii_of_nat n.

Definition code (c : ascii) : nat := nat_of_ascii c.

Definition byte_is (n : nat) (c : ascii) : bool := code c =? n.

Definition TAB := chr 9.
Definition NL := chr 10.
Definition VT := chr 11.
Definition FF := chr 12.
Definition CR := chr 13.
Definition SP := chr 32.
Definition DQUOTE := chr 34.
Definition SQUOTE := chr 39.
Definition BACKTICK := chr 96.
Definition SEMI := chr 59.
Definition COMMA := chr 44.
Definition DASH := chr 45.

Definition gostring_eqb (a b : gostring) : bool :=
  if list_eq_dec ascii_dec a b then true else false.

(** ** Package strings *)

Module Strings.

(** [strings.Split(s, sep)] for a one-byte separator, the only kind the
    parser passes (a line feed, a comma).  [strings.SplitSeq] yields the
    same pieces in the same order. *)
Fixpoint Split (s : gostring) (sep : ascii) : list gostring :=
  match s with
  | [] => [[]]
  | c :: s' =>
      if Ascii.eqb c sep then [] :: Split s' sep
      else match Split s' sep with
           | [] => [[c]]
           | piece :: pieces => (c :: piece) :: pieces
           end
  end.

Definition SplitSeq := Split.

Fixpoint Join (elems : list gostring) (sep : gostring) : gostring :=
  match elems with
  | [] => []
  | [e] => e
  | e :: more => e ++ sep ++ Join more sep
  end.

(** The bytes of [asciiSpace] in package strings. *)
Definition asciiSpace (c : ascii) : bool :=
  byte_is 9 c || byte_is 10 c || byte_is 11 c || byte_is 12 c
  || byte_is 13 c || byte_is 32 c.

(** [unicode.IsSpace] on a two-byte encoding: U+0085 and U+00A0. *)
Definition space2 (c1 c2 : ascii) : bool :=
  byte_is 194 c1 && (byte_is 133 c2 || byte_is 160 c2).

(** [unicode.IsSpace] on a three-byte encoding: U+1680, U+2000..U+200A,
    U+2028, U+2029, U+202F, U+205F and U+3000. *)
Definition space3 (c1 c2 c3 : ascii) : bool :=
  (byte_is 225 c1 && byte_is 154 c2 && byte_is 128 c3)
  || (byte_is 226 c1 && byte_is 128 c2 &&
        ((128 <=? code c3) && (code c3 <=? 138)
         || byte_is 168 c3 || byte_is 169 c3 || byte_is 175 c3))
  || (byte_is 226 c1 && byte_is 129 c2 && byte_is 159 c3)
  || (byte_is 227 c1 && byte_is 128 c2 && byte_is 128 c3).

(** Drop the white-space runes at the front of [s]. *)
Fixpoint trimLeft (s : gostring) : gostring :=
  match s with
  | [] => []
  | c1 :: s1 =>
      if asciiSpace c1 then trimLeft s1
      else match s1 with
           | [] => s
           | c2 :: s2 =>
               if space2 c1 c2 then trimLeft s2
               else match s2 with
                    | [] => s
                    | c3 :: s3 => if space3 c1 c2 c3 then trimLeft s3 else s
                    end
           end
  end.

(** The same from the back: [r] is the string reversed, so a rune's last
    byte comes first. *)
Fixpoint trimLeftRev (r : gostring) : gostring :=
  match r with
  | [] => []
  | c1 :: r1 =>
      if asciiSpace c1 then trimLeftRev r1
      else match r1 with
           | [] => r
           | c2 :: r2 =>
               if space2 c2 c1 then trimLeftRev r2
               else match r2 with
                    | [] => r
                    | c3 :: r3 => if space3 c3 c2 c1 then trimLeftRev r3 else r
                    end
           end
  end.

Definition trimRight (s : gostring) : gostring := rev (trimLeftRev (rev s)).

(** [strings.TrimSpace]: all leading and trailing white space, as Unicode
    defines it, removed. *)
Definition TrimSpace (s : gostring) : gostring := trimRight (trimLeft s).

Definition HasSuffix (s suffix : gostring) : bool :=
  (length suffix <=? length s)
  && gostring_eqb (skipn (length s - length suffix) s) suffix.

Definition TrimSuffix (s suffix : gostring) : gostring :=
  if HasSuffix s suffix then firstn (length s - length suffix) s else s.

End Strings.

(** ** Package regexp

    A pattern is a sequence of items, matched by a backtracking search whose
    first success is the match: the leftmost-first rule of package regexp.
    Both patterns of the parser are sequences of byte classes, literals and
    repetitions of a byte class, with capture boundaries in between. *)

Module Regexp.

Inductive item : Type :=
| Cls (p : ascii -> bool)            (* one byte of a class *)
| Alt (alts : list gostring)         (* one of several byte sequences *)
| Rep (greedy : bool) (p : ascii -> bool)   (* p* or p*? *)
| Mark.                              (* a capture boundary *)

Section Search.
Variable R : Type.

(** [p*] then [k], preferring more repetitions. *)
Fixpoint rep_greedy (p : ascii -> bool) (k : gostring -> option R)
         (s : gostring) : option R :=
  match s with
  | c :: s' =>
      if p c then
        match rep_greedy p k s' with
        | Some r => Some r
        | None => k s
        end
      else k s
  | [] => k s
  end.

(** [p*?] then [k], preferring fewer repetitions. *)
Fixpoint rep_lazy (p : ascii -> bool) (k : gostring -> option R)
         (s : gostring) : option R :=
  match k s with
  | Some r => Some r
  | None =>
      match s with
      | c :: s' => if p c then rep_lazy p k s' else None
      | [] => None
      end
  end.

Fixpoint strip_prefix (pre s : gostring) : option gostring :=
  match pre, s with
  | [], _ => Some s
  | a :: pre', c :: s' => if Ascii.eqb a c then strip_prefix pre' s' else None
  | _ :: _, [] => None
  end.

Fixpoint alt (alts : list gostring) (k : gostring -> option R)
         (s : gostring) : option R :=
  match alts with
  | [] => None
  | a :: more =>
      match strip_prefix a s with
      | Some s' =>
          match k s' with
          | Some r => Some r
          | None => alt more k s
          end
      | None => alt more k s
      end
  end.
End Search.

(** The search proper.  [marks] holds, latest first, the input that was
    left at each capture boundary passed so far; the result lists them in
    pattern order, with the input left after the whole match. *)
Fixpoint exec (its : list item) (marks : list gostring) (s : gostring)
  : option (list gostring * gostring) :=
  match its with
  | [] => Some (rev marks, s)
  | Cls p :: rest =>
      match s with
      | c :: s' => if p c then exec rest marks s' else None
      | [] => None
      end
  | Alt alts :: rest => alt alts (exec rest marks) s
  | Rep true p :: rest => rep_greedy p (exec rest marks) s
  | Rep false p :: rest => rep_lazy p (exec rest marks) s
  | Mark :: rest => exec rest (s :: marks) s
  end.

(** The text between two capture boundaries [a] and [b], [b] a suffix of
    [a]. *)
Definition between (a b : gostring) : gostring :=
  firstn (length a - length b) a.

Fixpoint groups (marks : list gostring) : list gostring :=
  match marks with
  | a :: b :: more => between a b :: groups more
  | _ => []
  end.

(** [FindStringSubmatch] for a pattern anchored at the beginning of the
    text by [^]: the whole match, then the text of each group; nil when
    there is no match. *)
Definition FindStringSubmatch (its : list item) (s : gostring)
  : list gostring :=
  match exec its [] s with
  | Some (marks, rest) => between s rest :: groups marks
  | None => []
  end.

(** [ReplaceAllString] for a pattern that matches no empty text and a
    replacement without [$]: the matches are found left to right, each
    search starting where the previous match ended.  [skip] counts the
    bytes of the current match still to be dropped. *)
Fixpoint replaceAll (its : list item) (repl : gostring) (skip : nat)
         (s : gostring) : gostring :=
  match s with
  | [] => []
  | c :: s' =>
      match skip with
      | S n => replaceAll its repl n s'
      | 0 =>
          match exec its [] s with
          | Some (_, rest) =>
              repl ++ replaceAll its repl (length s - length rest - 1) s'
          | None => c :: replaceAll its repl 0 s'
          end
      end
  end.

Definition ReplaceAllString (its : list item) (s repl : gostring) : gostring :=
  replaceAll its repl 0 s.

(** [\s] of the pattern syntax: tab, line feed, form feed, carriage
    return and space. *)
Definition space (c : ascii) : bool :=
  byte_is 9 c || byte_is 10 c || byte_is 12 c || byte_is 13 c || byte_is 32 c.

Definition any (c : ascii) : bool := true.

Definition notNL (c : ascii) : bool := negb (byte_is 10 c).

(** A letter under the [i] flag: itself or its other case. *)
Definition fold (lower : nat) (c : ascii) : bool :=
  byte_is lower c || byte_is (lower - 32) c.

(** [s] under the [i] flag also folds to U+017F, bytes C5 BF. *)
Definition fold_s : item := Alt [[chr 115]; [chr 83]; [chr 197; chr 191]].

End Regexp.

(** ** Package builder: parse.go *)

Module Builder.
Import Strings Regexp.

(** [/\*.*?\*/]: without the [s] flag the dot matches no line feed. *)
Definition reMultiLine : list item :=
  [Cls (byte_is 47); Cls (byte_is 42); Rep false notNL;
   Cls (byte_is 42); Cls (byte_is 47)].

(** The loop of [stripComments] over one line: [i] is the index of the
    first byte of [rest], and the loop runs while [i < len(line)-1].
    [None] is the source's [commentIdx = -1]. *)
Fixpoint findComment (i : nat) (rest : gostring)
         (inSingleQuote inDoubleQuote inBacktick : bool) : option nat :=
  match rest with
  | char :: ((nextChar :: _) as rest') =>
      if byte_is 39 char && negb inDoubleQuote && negb inBacktick then
        findComment (S i) rest' (negb inSingleQuote) inDoubleQuote inBacktick
      else if byte_is 34 char && negb inSingleQuote && negb inBacktick then
        findComment (S i) rest' inSingleQuote (negb inDoubleQuote) inBacktick
      else if byte_is 96 char && negb inSingleQuote && negb inDoubleQuote then
        findComment (S i) rest' inSingleQuote inDoubleQuote (negb inBacktick)
      else if byte_is 45 char && byte_is 45 nextChar
              && negb inSingleQuote && negb inDoubleQuote && negb inBacktick then
        Some i
      else findComment (S i) rest' inSingleQuote inDoubleQuote inBacktick
  | _ => None
  end.

Definition stripLine (line : gostring) : gostring :=
  match findComment 0 line false false false with
  | Some commentIdx => firstn commentIdx line
  | None => line
  end.

Definition stripComments (stmt : gostring) : gostring :=
  let stmt := ReplaceAllString reMultiLine stmt [] in
  let lines := Split stmt NL in
  let result := map stripLine lines in
  Join result [NL].

(** [col[lo:hi]] *)
Definition slice (col : gostring) (lo hi : nat) : gostring :=
  firstn (hi - lo) (skipn lo col).

Definition unquote (col : gostring) : gostring :=
  if 2 <=? length col then
    let first := nth 0 col SP in
    let last := nth (length col - 1) col SP in
    if (byte_is 96 first && byte_is 96 last)
       || (byte_is 34 first && byte_is 34 last)
       || (byte_is 39 first && byte_is 39 last)
    then slice col 1 (length col - 1)
    else col
  else col.

(** [(?is)^\s*select\s+(.*?)\s+from\s+([^\s;]+)] *)
Definition tableByte (c : ascii) : bool := negb (space c || byte_is 59 c).

Definition selectRe : list item :=
  [Rep true space;
   fold_s; Cls (fold 101); Cls (fold 108); Cls (fold 101); Cls (fold 99);
   Cls (fold 116);
   Cls space; Rep true space;
   Mark; Rep false any; Mark;
   Cls space; Rep true space;
   Cls (fold 102); Cls (fold 114); Cls (fold 111); Cls (fold 109);
   Cls space; Rep true space;
   Mark; Cls tableByte; Rep true tableByte; Mark].

(** The body of the loop over the column tokens. *)
Definition addColumn (columns : list gostring) (col : gostring)
  : list gostring :=
  let col := TrimSpace col in
  let col := unquote col in
  if gostring_eqb col [] then columns else columns ++ [col].

Definition Parse (stmt : gostring) : gostring * list gostring :=
  let stmt := stripComments stmt in
  let matches := FindStringSubmatch selectRe stmt in
  if length matches <? 3 then ([], [])
  else
    let columns := fold_left addColumn (SplitSeq (nth 1 matches []) COMMA) [] in
    let table := TrimSpace (nth 2 matches []) in
    let table := TrimSuffix table [SEMI] in
    (table, columns).

End Builder.

(** ** Values that cross the database boundary *)

(** An argument of a statement ([interface{}] in the source). *)
Inductive value : Type :=
| Nil
| Int (n : Z)
| Text (s : gostring).

(** A non-nil [error]. *)
Inductive goerror : Type :=
| ErrNoRows                      (* sql.ErrNoRows *)
| Errorf (msg : gostring)        (* fmt.Errorf *)
| DriverError (n : nat).         (* whatever the driver reports *)

Definition error := option goerror.

(** The result of running Go code on a state [W]: it returns, or panics. *)
Inductive outcome (W A : Type) : Type :=
| Return (a : A) (w : W)
| Panic (e : goerror) (w : W).

Arguments Return {W A} a w.
Arguments Panic {W A} e w.

Definition ret {W A} (a : A) : W -> outcome W A := fun w => Return a w.

Definition bind {W A B} (m : W -> outcome W A) (k : A -> W -> outcome W B)
  : W -> outcome W B :=
  fun w => match m w with
           | Return a w' => k a w'
           | Panic e w' => Panic e w'
           end.

Definition panic {W A} (e : goerror) : W -> outcome W A := fun w => Panic e w.

Notation "x <- m ;; k" := (bind m (fun x => k))
  (at level 61, m at next level, right associativity).

Definition state_of {W A} (o : outcome W A) : W :=
  match o with
  | Return _ w => w
  | Panic _ w => w
  end.

(** The types a driver brings along: the context, what the four primitives
    hand back, and the state of the world behind the handle. *)
Class Driver : Type := {
  Ctx : Type;
  Result : Type;
  Stmt : Type;
  Rows : Type;
  Row : Type;
  World : Type
}.

(** ** Package squirrel, as far as the program uses it

    The builder is a library outside the repository.  A [SelectBuilder] is
    an immutable value: every method returns a new builder.  [ToSql] follows
    [selectData.toSqlRaw]: no result column is an error, the table is
    optional, the parts are written in a fixed order. *)

Module Squirrel.

Inductive Sqlizer : Type :=
| Eq (column : gostring) (v : value)
| GtOrEq (column : gostring) (v : value).

Record SelectBuilder : Type := {
  Columns : list gostring;
  FromPart : option gostring;
  WhereParts : list Sqlizer;
  OrderByParts : list gostring;
  LimitPart : option N
}.

Definition Select (columns : list gostring) : SelectBuilder :=
  {| Columns := columns; FromPart := None; WhereParts := [];
     OrderByParts := []; LimitPart := None |}.

Definition From (b : SelectBuilder) (from : gostring) : SelectBuilder :=
  {| Columns := b.(Columns); FromPart := Some from;
     WhereParts := b.(WhereParts); OrderByParts := b.(OrderByParts);
     LimitPart := b.(LimitPart) |}.

Definition Where (b : SelectBuilder) (pred : Sqlizer) : SelectBuilder :=
  {| Columns := b.(Columns); FromPart := b.(FromPart);
     WhereParts := b.(WhereParts) ++ [pred];
     OrderByParts := b.(OrderByParts); LimitPart := b.(LimitPart) |}.

Definition OrderBy (b : SelectBuilder) (orderBys : list gostring)
  : SelectBuilder :=
  {| Columns := b.(Columns); FromPart := b.(FromPart);
     WhereParts := b.(WhereParts);
     OrderByParts := b.(OrderByParts) ++ orderBys;
     LimitPart := b.(LimitPart) |}.

Definition Limit (b : SelectBuilder) (limit : N) : SelectBuilder :=
  {| Columns := b.(Columns); FromPart := b.(FromPart);
     WhereParts := b.(WhereParts); OrderByParts := b.(OrderByParts);
     LimitPart := Some limit |}.

Definition partToSql (p : Sqlizer) : gostring * list value * error :=
  match p with
  | Eq column Nil => (column ++ str " IS NULL", [], None)
  | Eq column v => (column ++ str " = ?", [v], None)
  | GtOrEq column Nil =>
      ([], [], Some (Errorf (str
         "cannot use null with less than or greater than operators")))
  | GtOrEq column v => (column ++ str " >= ?", [v], None)
  end.

(** [appendToSql]: the parts in order, an empty one skipped, the separator
    before every part but the first. *)
Fixpoint appendToSql (parts : list (gostring * list value * error))
         (first : bool) (sep : gostring) (sql : gostring) (args : list value)
  : gostring * list value * error :=
  match parts with
  | [] => (sql, args, None)
  | (partSql, partArgs, Some e) :: _ => (sql, args, Some e)
  | (partSql, partArgs, None) :: more =>
      if gostring_eqb partSql [] then appendToSql more false sep sql args
      else appendToSql more false sep
             (sql ++ (if first then [] else sep) ++ partSql)
             (args ++ partArgs)
  end.

Definition plain (s : gostring) : gostring * list value * error :=
  (s, [], None).

Definition decimal (n : N) : gostring :=
  str (NilEmpty.string_of_uint (N.to_uint n)).

Definition ToSql (b : SelectBuilder) : gostring * list value * error :=
  if length b.(Columns) =? 0 then
    ([], [], Some (Errorf (str
       "select statements must have at least one result column")))
  else
    let sql := str "SELECT " in
    let '(sql, args, err) :=
      appendToSql (map plain b.(Columns)) true (str ", ") sql [] in
    match err with
    | Some e => ([], args, Some e)
    | None =>
        let '(sql, args, err) :=
          match b.(FromPart) with
          | Some from =>
              appendToSql [plain from] true (str ", ")
                          (sql ++ str " FROM ") args
          | None => (sql, args, None)
          end in
        match err with
        | Some e => ([], args, Some e)
        | None =>
            let '(sql, args, err) :=
              if 0 <? length b.(WhereParts) then
                appendToSql (map partToSql b.(WhereParts)) true
                            (str " AND ") (sql ++ str " WHERE ") args
              else (sql, args, None) in
            match err with
            | Some e => ([], args, Some e)
            | None =>
                let '(sql, args, err) :=
                  if 0 <? length b.(OrderByParts) then
                    appendToSql (map plain b.(OrderByParts)) true
                                (str ", ") (sql ++ str " ORDER BY ") args
                  else (sql, args, None) in
                match err with
                | Some e => ([], args, Some e)
                | None =>
                    match b.(LimitPart) with
                    | Some n => (sql ++ str " LIMIT " ++ decimal n, args, None)
                    | None => (sql, args, None)
                    end
                end
            end
        end
    end.

(** [MustSql] panics where [ToSql] reports an error. *)
Definition MustSql {W} (b : SelectBuilder)
  : W -> outcome W (gostring * list value) :=
  let '(sql, args, err) := ToSql b in
  match err with
  | Some e => panic e
  | None => ret (sql, args)
  end.

End Squirrel.

(** ** Package builder: db.go, the interface of a database handle *)

Module Db.
Section Interface.
Context `{Driver}.

Record DBTX : Type := {
  ExecContext :
    Ctx -> gostring -> list value -> World ->
    outcome World (option Result * error);
  PrepareContext :
    Ctx -> gostring -> World -> outcome World (option Stmt * error);
  QueryContext :
    Ctx -> gostring -> list value -> World ->
    outcome World (option Rows * error);
  QueryRowContext :
    Ctx -> gostring -> list value -> World -> outcome World (option Row)
}.
End Interface.
End Db.

Import Squirrel.

(** [SelectBuilderFromStmt] of parse.go. *)
Definition SelectBuilderFromStmt (stmt : gostring) : SelectBuilder :=
  let '(table, columns) := Builder.Parse stmt in
  From (Select columns) table.

(** ** Package builder: the guarded interceptor, receiver [*selector] *)

Module Selector.
Import Db.
Section Methods.
Context `{Driver}.

Record selector : Type := {
  raw : DBTX;
  expectedQuery : gostring;
  sb : SelectBuilder
}.

(** [r.expectedQuery != "" && query != r.expectedQuery] *)
Definition passes (r : selector) (query : gostring) : bool :=
  negb (gostring_eqb r.(expectedQuery) [])
  && negb (gostring_eqb query r.(expectedQuery)).

Definition PrepareContext (r : selector) (ctx : Ctx) (query : gostring) :=
  r.(raw).(Db.PrepareContext) ctx query.

Definition ExecContext (r : selector) (ctx : Ctx) (query : gostring)
           (args : list value) :=
  r.(raw).(Db.ExecContext) ctx query args.

Definition QueryContext (r : selector) (ctx : Ctx) (query : gostring)
           (args : list value)
  : World -> outcome World (option Rows * error) :=
  if passes r query then r.(raw).(Db.QueryContext) ctx query args
  else
    let '(overriddenQuery, overriddenArgs, err) := ToSql r.(sb) in
    match err with
    | Some e => ret (None, Some e)
    | None => r.(raw).(Db.QueryContext) ctx overriddenQuery overriddenArgs
    end.

Definition QueryRowContext (r : selector) (ctx : Ctx) (query : gostring)
           (args : list value)
  : World -> outcome World (option Row) :=
  if passes r query then r.(raw).(Db.QueryRowContext) ctx query args
  else
    let '(overriddenQuery, overriddenArgs, err) := ToSql r.(sb) in
    match err with
    | Some _ => r.(raw).(Db.QueryRowContext) ctx query args
    | None => r.(raw).(Db.QueryRowContext) ctx overriddenQuery overriddenArgs
    end.

(** A [*selector] seen through the interface. *)
Definition handle (r : selector) : DBTX :=
  {| Db.ExecContext := ExecContext r;
     Db.PrepareContext := PrepareContext r;
     Db.QueryContext := QueryContext r;
     Db.QueryRowContext := QueryRowContext r |}.

(** db.go *)
Definition SelectForQuery (raw : DBTX) (expectedQuery : gostring)
           (sb : SelectBuilder) : DBTX :=
  handle {| raw := raw; expectedQuery := expectedQuery; sb := sb |}.

Definition Select (raw : DBTX) (sb : SelectBuilder) : DBTX :=
  SelectForQuery raw [] sb.
End Methods.
End Selector.

(** ** Package builder: the unconditional interceptor, receiver [*selecter] *)

Module Selecter.
Import Db.
Section Methods.
Context `{Driver}.

Record selecter : Type := {
  raw : DBTX;
  sb : SelectBuilder
}.

Definition PrepareContext (r : selecter) (ctx : Ctx) (query : gostring) :=
  qa <- MustSql r.(sb) ;;
  r.(raw).(Db.PrepareContext) ctx (fst qa).

Definition ExecContext (r : selecter) (ctx : Ctx) (query : gostring)
           (args : list value) :=
  qa <- MustSql r.(sb) ;;
  r.(raw).(Db.ExecContext) ctx (fst qa) (snd qa).

Definition QueryContext (r : selecter) (ctx : Ctx) (query : gostring)
           (args : list value) :=
  qa <- MustSql r.(sb) ;;
  r.(raw).(Db.QueryContext) ctx (fst qa) (snd qa).

Definition QueryRowContext (r : selecter) (ctx : Ctx) (query : gostring)
           (args : list value) :=
  qa <- MustSql r.(sb) ;;
  r.(raw).(Db.QueryRowContext) ctx (fst qa) (snd qa).

Definition handle (r : selecter) : DBTX :=
  {| Db.ExecContext := ExecContext r;
     Db.PrepareContext := PrepareContext r;
     Db.QueryContext := QueryContext r;
     Db.QueryRowContext := QueryRowContext r |}.

Definition Select (raw : DBTX) (sb : SelectBuilder) : DBTX :=
  handle {| raw := raw; sb := sb |}.
End Methods.
End Selecter.

(** ** Package tutorial: the per-query entry points

    The package-level skeletons live in [globals], the part of the state
    only this package can name; a customization function comes from the
    caller and acts on the world outside it. *)

Module Tutorial.
Import Db.
Section Glue.
Context `{Driver}.

(** The generated layer: the row types with their zero values, the
    query constants and the decode routines of [*Queries]. *)
Variables User UserPost : Type.
Variable zeroUser : User.
Variable zeroUserPost : UserPost.
Variables listUsers listUserPosts : gostring.
Variable Queries_ListUsers :
  DBTX -> Ctx -> World -> outcome World (list User * error).
Variable Queries_ListUserPosts :
  DBTX -> Ctx -> World -> outcome World (list UserPost * error).

Record globals : Type := {
  listUsersBuilder : SelectBuilder;
  listUserPostsBuilder : SelectBuilder
}.

Definition deleted_at : gostring := str "deleted_at".

(** The initializers of the [var] block. *)
Definition init : globals :=
  {| listUsersBuilder :=
       Limit (Where (SelectBuilderFromStmt listUsers) (Eq deleted_at Nil)) 500;
     listUserPostsBuilder :=
       Limit (Where (SelectBuilderFromStmt listUserPosts)
                    (Eq deleted_at Nil)) 500 |}.

Definition pstate : Type := globals * World.

(** Code that only sees the world runs with the globals untouched. *)
Definition outside {A} (m : World -> outcome World A)
  : pstate -> outcome pstate A :=
  fun st =>
    match m (snd st) with
    | Return a w => Return a (fst st, w)
    | Panic e w => Panic e (fst st, w)
    end.

(** Reading a package-level variable. *)
Definition readGlobal {A} (f : globals -> A) : pstate -> outcome pstate A :=
  fun st => Return (f (fst st)) st.

Definition customization : Type :=
  SelectBuilder -> World -> outcome World SelectBuilder.

(** [if fn != nil { sb = fn(sb) }] *)
Definition applyFn (fn : option customization) (sb : SelectBuilder)
  : World -> outcome World SelectBuilder :=
  match fn with
  | Some f => f sb
  | None => ret sb
  end.

(** [builder.Select] is the one of db.go: a [selector] without guard. *)
Definition ListUsers (ctx : Ctx) (db : DBTX) (fn : option customization)
  : pstate -> outcome pstate (list User * error) :=
  sb <- readGlobal listUsersBuilder ;;
  sb <- outside (applyFn fn sb) ;;
  let db := Selector.Select db sb in
  outside (Queries_ListUsers db ctx).

(** The closure [FindUser] and [FindUserPost] hand to the list entry. *)
Definition capOne (fn : option customization) : customization :=
  fun sb => sb <- applyFn fn sb ;; ret (Limit sb 1).

Definition FindUser (ctx : Ctx) (db : DBTX) (fn : option customization)
  : pstate -> outcome pstate (User * error) :=
  r <- ListUsers ctx db (Some (capOne fn)) ;;
  let '(users, err) := r in
  match err with
  | Some e => ret (zeroUser, Some e)
  | None =>
      if length users =? 0 then ret (zeroUser, Some ErrNoRows)
      else ret (nth 0 users zeroUser, None)
  end.

Definition ListUserPosts (ctx : Ctx) (db : DBTX) (fn : option customization)
  : pstate -> outcome pstate (list UserPost * error) :=
  sb <- readGlobal listUserPostsBuilder ;;
  sb <- outside (applyFn fn sb) ;;
  let db := Selector.Select db sb in
  outside (Queries_ListUserPosts db ctx).

Definition FindUserPost (ctx : Ctx) (db : DBTX) (fn : option customization)
  : pstate -> outcome pstate (UserPost * error) :=
  r <- ListUserPosts ctx db (Some (capOne fn)) ;;
  let '(userPosts, err) := r in
  match err with
  | Some e => ret (zeroUserPost, Some e)
  | None =>
      if length userPosts =? 0 then ret (zeroUserPost, Some ErrNoRows)
      else ret (nth 0 userPosts zeroUserPost, None)
  end.

(** *** Calls of [ListUsers] running side by side

    A call in three steps: read the package-level skeleton into the
    local [sb], run the customization, run the generated routine on the
    wrapped handle.  A schedule picks which call of a pool moves next. *)
Inductive thread : Type :=
| AtEntry (ctx : Ctx) (db : DBTX) (fn : option customization)
| HasBase (ctx : Ctx) (db : DBTX) (fn : option customization)
          (sb : SelectBuilder)
| HasSkeleton (ctx : Ctx) (db : DBTX) (sb : SelectBuilder)
| Finished (r : list User * error)
| Crashed (e : goerror).

Definition step (t : thread) (st : pstate) : thread * pstate :=
  match t with
  | AtEntry ctx db fn => (HasBase ctx db fn (listUsersBuilder (fst st)), st)
  | HasBase ctx db fn sb =>
      match outside (applyFn fn sb) st with
      | Return sb' st' => (HasSkeleton ctx db sb', st')
      | Panic e st' => (Crashed e, st')
      end
  | HasSkeleton ctx db sb =>
      match outside (Queries_ListUsers (Selector.Select db sb) ctx) st with
      | Return r st' => (Finished r, st')
      | Panic e st' => (Crashed e, st')
      end
  | Finished _ | Crashed _ => (t, st)
  end.

Fixpoint stepAt (i : nat) (pool : list thread) (st : pstate) {struct pool}
  : list thread * pstate :=
  match pool with
  | [] => ([], st)
  | t :: rest =>
      match i with
      | 0 => let '(t', st') := step t st in (t' :: rest, st')
      | S j => let '(rest', st') := stepAt j rest st in (t :: rest', st')
      end
  end.

Fixpoint run (schedule : list nat) (pool : list thread) (st : pstate)
  : list thread * pstate :=
  match schedule with
  | [] => (pool, st)
  | i :: more => let '(pool', st') := stepAt i pool st in run more pool' st'
  end.

(** What a finished thread stands for as an outcome. *)
Definition result (t : thread) (st : pstate)
  : option (outcome pstate (list User * error)) :=
  match t with
  | Finished r => Some (Return r st)
  | Crashed e => Some (Panic e st)
  | _ => None
  end.

(** A call that has read the skeleton holds the value [base]. *)
Definition holds (base : SelectBuilder) (t : thread) : Prop :=
  match t with
  | HasBase _ _ _ sb => sb = base
  | _ => True
  end.

Definition entry (c : Ctx * DBTX * option customization) : thread :=
  let '(ctx, db, fn) := c in AtEntry ctx db fn.
End Glue.
End Tutorial.

(** ** Handles to test against *)

Module Doubles.
Import Db.

(** [recordDB] of the interceptor's test: it keeps the last statement and
    arguments given to [QueryContext]. *)
Record recordDB : Type := {
  lastQuery : gostring;
  lastArgs : list value
}.

Definition recordDriver : Driver :=
  {| Ctx := unit; Result := unit; Stmt := unit; Rows := unit; Row := unit;
     World := recordDB |}.

Definition recordHandle : @DBTX recordDriver :=
  @Build_DBTX recordDriver
    (fun _ _ _ => ret (None, None))
    (fun _ _ => ret (None, None))
    (fun _ query args _ =>
       Return (None, None) {| lastQuery := query; lastArgs := args |})
    (fun _ _ _ => ret None).

(** A handle over an empty table that logs every call it receives. *)
Inductive call : Type :=
| Exec (query : gostring) (args : list value)
| Prepare (query : gostring)
| Query (query : gostring) (args : list value)
| QueryRow (query : gostring) (args : list value).

Definition logDriver : Driver :=
  {| Ctx := unit; Result := unit; Stmt := unit; Rows := list nat; Row := nat;
     World := list call |}.

Definition logHandle : @DBTX logDriver :=
  @Build_DBTX logDriver
    (fun _ query args log => Return (Some tt, None) (log ++ [Exec query args]))
    (fun _ query log => Return (Some tt, None) (log ++ [Prepare query]))
    (fun _ query args log =>
       Return (Some [], None) (log ++ [Query query args]))
    (fun _ query args log => Return None (log ++ [QueryRow query args])).

(** The decode routine sqlc generates for a [:many] query, on rows that
    are already decoded. *)
Definition decodeMany (listStmt : gostring) (db : @DBTX logDriver) (ctx : unit)
  : list call -> outcome (list call) (list nat * error) :=
  r <- db.(QueryContext) ctx listStmt [] ;;
  match r with
  | (_, Some e) => ret ([], Some e)
  | (Some rows, None) => ret (rows, None)
  | (None, None) => ret ([], None)
  end.

(** What [decodeMany] makes of the outcome of its query call. *)
Definition decodeOutcome (o : outcome (list call) (option (list nat) * error))
  : outcome (list call) (list nat * error) :=
  match o with
  | Return (_, Some e) w => Return ([], Some e) w
  | Return (Some rows, None) w => Return (rows, None) w
  | Return (None, None) w => Return ([], None) w
  | Panic e w => Panic e w
  end.

Definition listUsersStmt : gostring :=
  str "-- name: ListUsers :many
SELECT id, name, email, age, created_at, updated_at FROM users
".

End Doubles.

(** Refinements of a skeleton that leave its columns and table alone. *)
Inductive refinement : Type :=
| AddWhere (pred : Sqlizer)
| AddOrderBy (orderBys : list gostring)
| SetLimit (limit : N).

Definition refine1 (sb : SelectBuilder) (r : refinement) : SelectBuilder :=
  match r with
  | AddWhere pred => Where sb pred
  | AddOrderBy orderBys => OrderBy sb orderBys
  | SetLimit limit => Limit sb limit
  end.

Definition refine (rs : list refinement) (sb : SelectBuilder) : SelectBuilder :=
  fold_left refine1 rs sb.

(** ** Vocabulary for the parser's properties *)

Definition isQuote (c : ascii) : Prop :=
  c = BACKTICK \/ c = DQUOTE \/ c = SQUOTE.

(** A token wrapped in a matching pair of quote bytes. *)
Definition quoted (t : gostring) : Prop :=
  exists q inner, isQuote q /\ t = q :: inner ++ [q].

(** What the loop of [Parse] makes of one token of the column region. *)
Definition columnOf (tok : gostring) : gostring :=
  Builder.unquote (Strings.TrimSpace tok).

Definition nonEmpty (s : gostring) : bool := negb (gostring_eqb s []).

(** No capture boundary among the items. *)
Fixpoint markFree (its : list Regexp.item) : bool :=
  match its with
  | [] => true
  | Regexp.Mark :: _ => false
  | _ :: rest => markFree rest
  end.

(** "Every token of the captured column region comes back, unquoted when
    it is quoted": the reading of the quoting property that keeps every
    token. *)
Definition every_token_returned : Prop :=
  forall stmt whole region table tok,
    Regexp.FindStringSubmatch Builder.selectRe (Builder.stripComments stmt)
    = [whole; region; table] ->
    In tok (Strings.SplitSeq region COMMA) ->
    In (columnOf tok) (snd (Builder.Parse stmt)).

(** The shape of [Parse]'s result, for a notion [white] of white space: a
    table without white space and semicolon, no empty column, and no column
    at all without a table. *)
Definition parse_invariant (white : ascii -> bool) (stmt : gostring) : Prop :=
  let '(table, columns) := Builder.Parse stmt in
  (table <> [] -> Forall (fun c => white c = false /\ c <> SEMI) table)
  /\ Forall (fun col => col <> []) columns
  /\ (table = [] -> columns = []).

(** A call fails fast from the state [w]: the wrapped handle's world is as
    it was, and the call panicked or returned an error ([err] reads the
    error out of what is returned). *)
Definition failsFast {W A : Type} (err : A -> error) (w : W)
           (o : outcome W A) : Prop :=
  state_of o = w
  /\ match o with
     | Return a _ => err a <> None
     | Panic _ _ => True
     end.

(** The error squirrel reports for a skeleton without columns. *)
Definition noColumns : goerror :=
  Errorf (str "select statements must have at least one result column").

(** ** Canonical statements

    The statements the generated layer hands to the parser: [SELECT], the
    column names separated by commas, [FROM], the table name, with white
    space (line breaks included) wherever SQL allows it. *)

Module Canonical.

(** A byte of a name: printable ASCII but the comma, the semicolon, the
    quote bytes and the bytes comment markers are made of. *)
Definition identByte (c : ascii) : bool :=
  (33 <=? code c) && (code c <=? 126)
  && negb (byte_is 44 c || byte_is 59 c || byte_is 45 c || byte_is 47 c
           || byte_is 39 c || byte_is 34 c || byte_is 96 c).

(** [s] spells the keyword [kw] (lower-case codes) in some mix of cases. *)
Fixpoint isKeyword (kw : list nat) (s : gostring) : bool :=
  match kw, s with
  | [], [] => true
  | l :: kw', c :: s' => Regexp.fold l c && isKeyword kw' s'
  | _, _ => false
  end.

Definition kwSelect : list nat := [115; 101; 108; 101; 99; 116].
Definition kwFrom : list nat := [102; 114; 111; 109].

Definition blank (s : gostring) : bool := forallb Regexp.space s.

Definition identifier (s : gostring) : bool :=
  nonEmpty s && forallb identByte s.

(** A column name: a name other than the keyword that ends the list. *)
Definition columnName (s : gostring) : bool :=
  identifier s && negb (isKeyword kwFrom s).

Record statement : Type := {
  lead : gostring;
  selectWord : gostring;
  gap1 : gostring;
  firstColumn : gostring;
  (* white space, the comma, white space, the next column *)
  moreColumns : list (gostring * gostring * gostring);
  gap2 : gostring;
  fromWord : gostring;
  gap3 : gostring;
  table : gostring;
  tail : gostring
}.

Definition nextColumn (x : gostring * gostring * gostring) : gostring :=
  let '(before, after, col) := x in before ++ [COMMA] ++ after ++ col.

Definition columnsText (c : statement) : gostring :=
  c.(firstColumn) ++ concat (map nextColumn c.(moreColumns)).

Definition tableText (c : statement) : gostring :=
  c.(gap2) ++ c.(fromWord) ++ c.(gap3) ++ c.(table) ++ c.(tail).

Definition text (c : statement) : gostring :=
  c.(lead) ++ c.(selectWord) ++ c.(gap1) ++ columnsText c ++ tableText c.

Definition columns (c : statement) : list gostring :=
  c.(firstColumn) :: map (fun x => snd x) c.(moreColumns).

Definition nextColumnOk (x : gostring * gostring * gostring) : bool :=
  let '(before, after, col) := x in
  blank before && blank after && columnName col.

Definition wellFormed (c : statement) : bool :=
  blank c.(lead)
  && isKeyword kwSelect c.(selectWord)
  && nonEmpty c.(gap1) && blank c.(gap1)
  && columnName c.(firstColumn)
  && forallb nextColumnOk c.(moreColumns)
  && nonEmpty c.(gap2) && blank c.(gap2)
  && isKeyword kwFrom c.(fromWord)
  && nonEmpty c.(gap3) && blank c.(gap3)
  && identifier c.(table)
  && forallb (fun b => Regexp.space b || byte_is 59 b) c.(tail).

(** The pattern in stretches: a keyword letter by letter, what follows
    the column region, what follows the white space before [from]. *)
Definition lits (kw : list nat) : list Regexp.item :=
  map (fun l => Regexp.Cls (Regexp.fold l)) kw.

Definition afterGap : list Regexp.item :=
  lits kwFrom
  ++ [Regexp.Cls Regexp.space; Regexp.Rep true Regexp.space; Regexp.Mark;
      Regexp.Cls Builder.tableByte; Regexp.Rep true Builder.tableByte;
      Regexp.Mark].

Definition afterRegion : list Regexp.item :=
  Regexp.Cls Regexp.space :: Regexp.Rep true Regexp.space :: afterGap.

(** A keyword is spelled with letters. *)
Definition letters (kw : list nat) : Prop :=
  Forall (fun l => 97 <= l <= 122) kw.

(** Text that cannot continue a name or a keyword: it is over, or goes on
    with white space or a comma. *)
Definition stops (s : gostring) : Prop :=
  match s with
  | [] => True
  | c :: _ => Regexp.space c = true \/ c = COMMA
  end.

(** Text that does not go on with a byte of the class [p]. *)
Definition leaves (p : ascii -> bool) (s : gostring) : Prop :=
  match s with
  | [] => True
  | c :: _ => p c = false
  end.

(** The statement as the builder writes it: one space where white space is
    due, a comma and a space between columns, nothing before and after. *)
Definition normalForm (c : statement) : statement :=
  {| lead := [];
     selectWord := str "SELECT";
     gap1 := [SP];
     firstColumn := c.(firstColumn);
     moreColumns := map (fun x => ([], [SP], snd x)) c.(moreColumns);
     gap2 := [SP];
     fromWord := str "FROM";
     gap3 := [SP];
     table := c.(table);
     tail := [] |}.

(** A byte that opens no comment: neither a slash nor a dash. *)
Definition noMarker (b : ascii) : bool :=
  negb (byte_is 47 b || byte_is 45 b).

(** *** Comments that stay on their line *)

Definition SLASH := chr 47.
Definition STAR := chr 42.

(** A line of source: stretches of plain text, each followed by a block
    comment, then plain text, then perhaps a line comment. *)
Record line : Type := {
  pieces : list (gostring * gostring);
  plainEnd : gostring;
  lineComment : option gostring
}.

Definition blockComment (body : gostring) : gostring :=
  [SLASH; STAR] ++ body ++ [STAR; SLASH].

Definition piece (x : gostring * gostring) : gostring :=
  fst x ++ blockComment (snd x).

Definition trailing (comment : option gostring) : gostring :=
  match comment with
  | Some t => [DASH; DASH] ++ t
  | None => []
  end.

(** The line as written, and the line without its comments. *)
Definition written (l : line) : gostring :=
  concat (map piece l.(pieces)) ++ l.(plainEnd) ++ trailing l.(lineComment).

Definition bare (l : line) : gostring :=
  concat (map (fun x => fst x) l.(pieces)) ++ l.(plainEnd).

(** What is left of a line once its block comments are gone. *)
Definition unblocked (l : line) : gostring :=
  bare l ++ trailing l.(lineComment).

Definition noSlash (c : ascii) : bool := negb (byte_is 47 c).

Definition noDash (c : ascii) : bool := negb (byte_is 45 c).

(** The quote state of the comment scan after an opening quote byte [q]:
    [inSingleQuote], [inDoubleQuote], [inBacktick]. *)
Definition quoteState (q : ascii) : bool * bool * bool :=
  (byte_is 39 q, byte_is 34 q, byte_is 96 q).

(** A byte that leaves the quote state [inS], [inD], [inB] as it is. *)
Definition inert (inS inD inB : bool) (c : ascii) : bool :=
  negb (byte_is 39 c && negb inD && negb inB)
  && negb (byte_is 34 c && negb inS && negb inB)
  && negb (byte_is 96 c && negb inS && negb inD).

Definition source (ls : list line) : gostring :=
  Strings.Join (map written ls) [NL].

Definition plain (ls : list line) : gostring :=
  Strings.Join (map bare ls) [NL].

(** Plain text of a line: no line feed, and none of the bytes that open a
    comment or a quotation. *)
Definition plainByte (c : ascii) : bool :=
  negb (byte_is 10 c || byte_is 47 c || byte_is 45 c
        || byte_is 39 c || byte_is 34 c || byte_is 96 c).

(** The text of a comment: no line feed and no slash. *)
Definition commentByte (c : ascii) : bool :=
  negb (byte_is 10 c || byte_is 47 c).

(** Text between two quote bytes [q]: no [q], no line feed, no slash. *)
Definition quotedByte (q : ascii) (b : ascii) : bool :=
  negb (Ascii.eqb b q) && commentByte b.

Definition pieceOk (x : gostring * gostring) : bool :=
  forallb plainByte (fst x) && forallb commentByte (snd x).

Definition lineOk (l : line) : bool :=
  forallb pieceOk l.(pieces)
  && forallb plainByte l.(plainEnd)
  && match l.(lineComment) with
     | Some t => forallb commentByte t
     | None => true
     end.

End Canonical.

(** ** Measures and callers

    The number of line feeds of a text, and the customization the example
    program (example.go) hands to [ListUsers]. *)

Definition countNL (s : gostring) : nat := count_occ ascii_dec s NL.

Module Example.

(** [sb.Where(sq.GtOrEq{"age": 18}).OrderBy("created_at DESC").Limit(10)] *)
Definition adults (sb : SelectBuilder) : SelectBuilder :=
  Limit (OrderBy (Where sb (GtOrEq (str "age") (Int 18)))
                 [str "created_at DESC"]) 10.

End Example.

(** ** Sample inputs *)

Module Samples.
Import Doubles.

Definition emptyRecord : recordDB := {| lastQuery := []; lastArgs := [] |}.

(** The skeleton of the interceptor's test. *)
Definition usersById : SelectBuilder :=
  Where (From (Select [str "*"]) (str "users")) (Eq (str "id") (Int 10)).

(** A skeleton without columns. *)
Definition unparsed : SelectBuilder :=
  refine [AddWhere (Eq Tutorial.deleted_at Nil); SetLimit 500]
         (SelectBuilderFromStmt (str "update table set a=1")).

Definition quotedStmt : gostring :=
  str "SELECT `a`, " ++ [DQUOTE] ++ str "b" ++ [DQUOTE]
      ++ str ", 'c' FROM t1;".

Definition vtStmt : gostring := str "select a from " ++ [VT].

(** The statement sqlc generates for [ListUsers], line by line, and the
    same as a canonical statement. *)
Definition listUsersLines : list Canonical.line :=
  [ {| Canonical.pieces := []; Canonical.plainEnd := [];
       Canonical.lineComment := Some (str " name: ListUsers :many") |};
    {| Canonical.pieces := [(str "SELECT id, ", str " the key ")];
       Canonical.plainEnd := str "name, ";
       Canonical.lineComment := Some (str " comment") |};
    {| Canonical.pieces := [];
       Canonical.plainEnd := str "email, age, created_at, updated_at FROM users";
       Canonical.lineComment := None |};
    {| Canonical.pieces := []; Canonical.plainEnd := [];
       Canonical.lineComment := None |} ].

Definition listUsersCanonical : Canonical.statement :=
  {| Canonical.lead := [NL];
     Canonical.selectWord := str "SELECT";
     Canonical.gap1 := str " ";
     Canonical.firstColumn := str "id";
     Canonical.moreColumns :=
       [([], str " ", str "name");
        ([], str " " ++ [NL], str "email");
        ([], str " ", str "age");
        ([], str " ", str "created_at");
        ([], str " ", str "updated_at")];
     Canonical.gap2 := str " ";
     Canonical.fromWord := str "FROM";
     Canonical.gap3 := str " ";
     Canonical.table := str "users";
     Canonical.tail := [NL] |}.

(** A second skeleton and two guards, for stacked interceptors. *)
Definition postsByUser : SelectBuilder :=
  Where (From (Select [str "id"; str "title"]) (str "posts"))
        (Eq (str "user_id") (Int 3)).

Definition listUsersGuard : gostring := str "SELECT * FROM users".
Definition listPostsGuard : gostring := str "SELECT * FROM posts".

(** The customization of the example program, as a caller hands it over. *)
Definition adultsFn : @Tutorial.customization logDriver :=
  fun sb => ret (Example.adults sb).

(** A line with dashes between single quotes and a comment after them. *)
Definition quotedDashes : gostring :=
  str "SELECT " ++ SQUOTE :: str "a--b" ++ SQUOTE :: str " FROM t "
      ++ Canonical.trailing (Some (str " note")).

Definition withClause : gostring :=
  str "  WITH x AS (SELECT 1) SELECT a FROM x".

Definition usersState : @Tutorial.pstate logDriver :=
  (Tutorial.init listUsersStmt listUsersStmt, []).

End Samples.

Unset Implicit Arguments.

(** * The interceptor *)

Section InterceptorFacts.
Context `{Driver}.
Import Db.

Variable raw : DBTX.
Variable sb : SelectBuilder.

Lemma passes_true (guard query : gostring) :
  guard <> [] -> query <> guard ->
  Selector.passes {| Selector.raw := raw; Selector.expectedQuery := guard;
                     Selector.sb := sb |} query = true.
Proof.
  intros Hg Hq. unfold Selector.passes, gostring_eqb. simpl.
  destruct (list_eq_dec ascii_dec guard []); [contradiction|].
  destruct (list_eq_dec ascii_dec query guard); [contradiction|].
  reflexivity.
Qed.

Lemma passes_false (guard query : gostring) :
  guard = [] \/ query = guard ->
  Selector.passes {| Selector.raw := raw; Selector.expectedQuery := guard;
                     Selector.sb := sb |} query = false.
Proof.
  intros Hor. unfold Selector.passes, gostring_eqb. simpl.
  destruct (list_eq_dec ascii_dec guard []) as [|Hg]; [reflexivity|].
  destruct (list_eq_dec ascii_dec query guard) as [|Hq]; [reflexivity|].
  destruct Hor; contradiction.
Qed.

(** C2: a query or query-single-row call whose statement differs from a
    non-empty guard reaches the wrapped handle with the caller's statement
    and arguments; with an empty guard, or a statement equal to the guard,
    it reaches the wrapped handle with the statement and the arguments the
    skeleton renders to. *)
Theorem C2_guard_selects_statement :
  forall (guard : gostring) (ctx : Ctx) (query : gostring)
         (args : list value) (w : World),
    let h := Selector.SelectForQuery raw guard sb in
    (guard <> [] -> query <> guard ->
     h.(QueryContext) ctx query args w = raw.(QueryContext) ctx query args w
     /\ h.(QueryRowContext) ctx query args w
        = raw.(QueryRowContext) ctx query args w)
    /\ (guard = [] \/ query = guard ->
        forall rendered renderedArgs,
          ToSql sb = (rendered, renderedArgs, None) ->
          h.(QueryContext) ctx query args w
          = raw.(QueryContext) ctx rendered renderedArgs w
          /\ h.(QueryRowContext) ctx query args w
             = raw.(QueryRowContext) ctx rendered renderedArgs w).
Proof.
  intros guard ctx query args w h. split.
  - intros Hg Hq. subst h. simpl.
    unfold Selector.QueryContext, Selector.QueryRowContext.
    rewrite passes_true by assumption. split; reflexivity.
  - intros Hor rendered renderedArgs Hsql. subst h. simpl.
    unfold Selector.QueryContext, Selector.QueryRowContext.
    rewrite passes_false by assumption. simpl. rewrite Hsql.
    split; reflexivity.
Qed.

Lemma render_failure
      (guard : gostring) (ctx : Ctx) (query : gostring)
      (args : list value) (w : World)
      (q0 : gostring) (a0 : list value) (e : goerror) :
  ToSql sb = (q0, a0, Some e) ->
  guard = [] \/ query = guard ->
  (Selector.SelectForQuery raw guard sb).(QueryContext) ctx query args w
  = Return (None, Some e) w
  /\ (Selector.SelectForQuery raw guard sb).(QueryRowContext) ctx query args w
     = raw.(QueryRowContext) ctx query args w.
Proof.
  intros Hsql Hor. simpl.
  unfold Selector.QueryContext, Selector.QueryRowContext.
  rewrite passes_false by assumption. simpl. rewrite Hsql.
  split; reflexivity.
Qed.

(** C3: when the skeleton fails to render, a query call that reaches the
    interception branch returns the rendering error and leaves the wrapped
    handle alone, while a query-single-row call is forwarded to the wrapped
    handle with the caller's statement and arguments. *)
Theorem C3_render_failure_asymmetry :
  forall (guard : gostring) (ctx : Ctx) (query : gostring)
         (args : list value) (w : World)
         (q0 : gostring) (a0 : list value) (e : goerror),
    ToSql sb = (q0, a0, Some e) ->
    guard = [] \/ query = guard ->
    let h := Selector.SelectForQuery raw guard sb in
    h.(QueryContext) ctx query args w = Return (None, Some e) w
    /\ h.(QueryRowContext) ctx query args w
       = raw.(QueryRowContext) ctx query args w.
Proof.
  intros guard ctx query args w q0 a0 e Hsql Hor h. subst h.
  exact (render_failure guard ctx query args w q0 a0 e
           Hsql Hor).
Qed.

(** C6: the unconditional interceptor hands an exec call to the wrapped
    handle with the statement and the arguments the skeleton renders to
    (and panics with the rendering error, the wrapped handle untouched,
    when there are none); the guarded interceptor hands every exec call
    on unchanged, whatever its guard. *)
Theorem C6_exec_policy :
  forall (ctx : Ctx) (query : gostring) (args : list value) (w : World),
    (forall rendered renderedArgs,
        ToSql sb = (rendered, renderedArgs, None) ->
        (Selecter.Select raw sb).(ExecContext) ctx query args w
        = raw.(ExecContext) ctx rendered renderedArgs w)
    /\ (forall q0 a0 e,
           ToSql sb = (q0, a0, Some e) ->
           (Selecter.Select raw sb).(ExecContext) ctx query args w
           = Panic e w)
    /\ (forall guard,
           (Selector.SelectForQuery raw guard sb).(ExecContext) ctx query args w
           = raw.(ExecContext) ctx query args w).
Proof.
  intros ctx query args w. repeat split.
  - intros rendered renderedArgs Hsql. simpl.
    unfold Selecter.ExecContext, bind, MustSql. simpl. rewrite Hsql.
    reflexivity.
  - intros q0 a0 e Hsql. simpl.
    unfold Selecter.ExecContext, bind, MustSql. simpl. rewrite Hsql.
    reflexivity.
Qed.
End InterceptorFacts.

(** * The per-query entry points *)

Section TutorialFacts.
Context `{Driver}.
Import Db Tutorial.

Variables User UserPost : Type.
Variable zeroUser : User.
Variable zeroUserPost : UserPost.
Variable Queries_ListUsers :
  DBTX -> Ctx -> World -> outcome World (list User * error).
Variable Queries_ListUserPosts :
  DBTX -> Ctx -> World -> outcome World (list UserPost * error).

Lemma outside_frame {A} (m : World -> outcome World A) (st : pstate) :
  fst (state_of (outside m st)) = fst st.
Proof.
  unfold outside. destruct (m (snd st)); reflexivity.
Qed.

Lemma ListUsers_unfold (ctx : Ctx) (db : DBTX) (fn : option customization)
      (st : pstate) :
  ListUsers Queries_ListUsers ctx db fn st
  = outside (sb <- applyFn fn (listUsersBuilder (fst st)) ;;
             Queries_ListUsers (Selector.Select db sb) ctx) st.
Proof.
  unfold ListUsers, bind, readGlobal, outside. destruct st as [g w]. simpl.
  destruct (applyFn fn (listUsersBuilder g) w); simpl; [|reflexivity].
  destruct (Queries_ListUsers _ ctx w0); reflexivity.
Qed.

Lemma ListUserPosts_unfold (ctx : Ctx) (db : DBTX)
      (fn : option customization) (st : pstate) :
  ListUserPosts Queries_ListUserPosts ctx db fn st
  = outside (sb <- applyFn fn (listUserPostsBuilder (fst st)) ;;
             Queries_ListUserPosts (Selector.Select db sb) ctx) st.
Proof.
  unfold ListUserPosts, bind, readGlobal, outside. destruct st as [g w]. simpl.
  destruct (applyFn fn (listUserPostsBuilder g) w); simpl; [|reflexivity].
  destruct (Queries_ListUserPosts _ ctx w0); reflexivity.
Qed.

Lemma step_frame (t : thread User) (st : pstate) :
  fst (snd (step Queries_ListUsers t st)) = fst st.
Proof.
  destruct t; simpl; try reflexivity.
  - pose proof (outside_frame (applyFn fn sb) st) as Hf.
    destruct (outside (applyFn fn sb) st); exact Hf.
  - pose proof (outside_frame
                  (Queries_ListUsers (Selector.Select db sb) ctx) st) as Hf.
    destruct (outside (Queries_ListUsers (Selector.Select db sb) ctx) st);
      exact Hf.
Qed.

Lemma step_holds (t : thread User) (st : pstate) :
  holds (listUsersBuilder (fst st)) t ->
  holds (listUsersBuilder (fst st)) (fst (step Queries_ListUsers t st)).
Proof.
  destruct t; simpl; intros Hh; try exact I.
  - reflexivity.
  - destruct (outside (applyFn fn sb) st); exact I.
  - destruct (outside (Queries_ListUsers (Selector.Select db sb) ctx) st);
      exact I.
Qed.

Lemma stepAt_invariant (i : nat) (pool : list (thread User)) (st : pstate) :
  Forall (holds (listUsersBuilder (fst st))) pool ->
  fst (snd (stepAt Queries_ListUsers i pool st)) = fst st
  /\ Forall (holds (listUsersBuilder (fst st)))
            (fst (stepAt Queries_ListUsers i pool st)).
Proof.
  revert i. induction pool as [|t rest IH]; intros i Hall; simpl.
  - split; [reflexivity | constructor].
  - inversion Hall as [|? ? Ht Hrest]; subst. destruct i as [|j].
    + pose proof (step_frame t st) as Hf. pose proof (step_holds t st Ht) as Hh.
      destruct (step Queries_ListUsers t st) as [t' st']. simpl in *.
      split; [exact Hf | constructor; assumption].
    + destruct (IH j Hrest) as [Hf Hh].
      destruct (stepAt Queries_ListUsers j rest st) as [rest' st']. simpl in *.
      split; [exact Hf | constructor; assumption].
Qed.

Lemma run_invariant (schedule : list nat) (pool : list (thread User))
      (st : pstate) :
  Forall (holds (listUsersBuilder (fst st))) pool ->
  fst (snd (run Queries_ListUsers schedule pool st)) = fst st
  /\ Forall (holds (listUsersBuilder (fst st)))
            (fst (run Queries_ListUsers schedule pool st)).
Proof.
  revert pool st. induction schedule as [|i more IH]; intros pool st Hall.
  - simpl. split; [reflexivity | exact Hall].
  - simpl. destruct (@stepAt_invariant i pool st Hall) as [Hf Hh].
    destruct (stepAt Queries_ListUsers i pool st) as [pool' st'].
    simpl in *. rewrite <- Hf in Hh. destruct (IH pool' st' Hh) as [Hf' Hh'].
    rewrite Hf' , Hf in *. split; [reflexivity | exact Hh'].
Qed.

(** A call stepped three times on its own is [ListUsers]. *)
Lemma three_steps (ctx : Ctx) (db : DBTX) (fn : option customization)
      (st : pstate) :
  let '(pool, st') :=
    run Queries_ListUsers [0; 0; 0] [AtEntry User ctx db fn] st in
  match pool with
  | [t] => result t st' = Some (ListUsers Queries_ListUsers ctx db fn st)
  | _ => False
  end.
Proof.
  rewrite ListUsers_unfold. destruct st as [g w].
  unfold outside, bind. simpl. unfold outside. simpl.
  destruct (applyFn fn (listUsersBuilder g) w) as [sb' w'|e w']; simpl.
  - unfold outside. simpl.
    destruct (Queries_ListUsers (Selector.Select db sb') ctx w'); reflexivity.
  - reflexivity.
Qed.

(** C8: when the list call that [FindUser] (or [FindUserPost]) makes, with
    the cap of one row added, comes back with no row and no error, the
    caller gets the zero value together with [sql.ErrNoRows]. *)
Theorem C8_find_without_rows_is_not_found :
  forall (ctx : Ctx) (db : DBTX) (fn : option customization)
         (st st' : pstate),
    (ListUsers Queries_ListUsers ctx db (Some (capOne fn)) st
     = Return ([], None) st' ->
     FindUser zeroUser Queries_ListUsers ctx db fn st
     = Return (zeroUser, Some ErrNoRows) st')
    /\ (ListUserPosts Queries_ListUserPosts ctx db (Some (capOne fn)) st
        = Return ([], None) st' ->
        FindUserPost zeroUserPost Queries_ListUserPosts ctx db fn st
        = Return (zeroUserPost, Some ErrNoRows) st').
Proof.
  intros ctx db fn st st'. split; intros Hlist.
  - unfold FindUser, bind. rewrite Hlist. reflexivity.
  - unfold FindUserPost, bind. rewrite Hlist. reflexivity.
Qed.

(** C9: a call of a list entry point, whatever the customization, leaves
    the package-level skeletons as they were and works on the value it
    read from them; calls following one another, or interleaved step by
    step in any order, leave them unchanged too, and each of them reads
    the same base value. *)
Theorem C9_base_skeleton_is_not_mutated :
  forall (ctx : Ctx) (db : DBTX) (fn : option customization) (st : pstate),
    (fst (state_of (ListUsers Queries_ListUsers ctx db fn st)) = fst st
     /\ ListUsers Queries_ListUsers ctx db fn st
        = outside (sb <- applyFn fn (listUsersBuilder (fst st)) ;;
                   Queries_ListUsers (Selector.Select db sb) ctx) st)
    /\ (fst (state_of (ListUserPosts Queries_ListUserPosts ctx db fn st))
        = fst st
        /\ ListUserPosts Queries_ListUserPosts ctx db fn st
           = outside (sb <- applyFn fn (listUserPostsBuilder (fst st)) ;;
                      Queries_ListUserPosts (Selector.Select db sb) ctx) st)
    /\ (forall ctx2 db2 fn2,
           let st1 := state_of (ListUsers Queries_ListUsers ctx db fn st) in
           ListUsers Queries_ListUsers ctx2 db2 fn2 st1
           = outside (sb <- applyFn fn2 (listUsersBuilder (fst st)) ;;
                      Queries_ListUsers (Selector.Select db2 sb) ctx2) st1)
    /\ (forall calls schedule,
           let '(pool, st') :=
             run Queries_ListUsers schedule (map (entry User) calls) st in
           fst st' = fst st
           /\ Forall (holds (listUsersBuilder (fst st))) pool).
Proof.
  intros ctx db fn st.
  assert (Hframe : fst (state_of (ListUsers Queries_ListUsers ctx db fn st))
                   = fst st).
  { rewrite ListUsers_unfold. apply outside_frame. }
  repeat split.
  - exact Hframe.
  - apply ListUsers_unfold.
  - rewrite ListUserPosts_unfold. apply outside_frame.
  - apply ListUserPosts_unfold.
  - intros ctx2 db2 fn2 st1. rewrite ListUsers_unfold. subst st1.
    rewrite Hframe. reflexivity.
  - intros calls schedule.
    assert (Hentry : Forall (holds (listUsersBuilder (fst st)))
                            (map (entry User) calls)).
    { apply Forall_forall. intros t Hin. apply in_map_iff in Hin.
      destruct Hin as [[[c d] f] [<- _]]. exact I. }
    destruct (@run_invariant schedule _ st Hentry) as [Hf Hh].
    destruct (run Queries_ListUsers schedule (map (entry User) calls) st)
      as [pool st'].
    split; assumption.
Qed.
End TutorialFacts.

(** * The parser *)

Section SearchFacts.
Import Regexp.
Variable R : Type.

Lemma rep_greedy_inv (p : ascii -> bool) (k : gostring -> option R)
      (s : gostring) (r : R) :
  rep_greedy p k s = Some r ->
  exists pre s', s = pre ++ s' /\ forallb p pre = true /\ k s' = Some r.
Proof.
  induction s as [|c s' IH]; simpl; intros Hrun.
  - exists [], []. auto.
  - destruct (p c) eqn:Hp.
    + destruct (rep_greedy p k s') as [r'|] eqn:Hrec.
      * destruct (IH Hrun) as (pre & s'' & -> & Hall & Hk).
        exists (c :: pre), s''. simpl. rewrite Hp, Hall. auto.
      * exists [], (c :: s'). auto.
    + exists [], (c :: s'). auto.
Qed.

Lemma rep_lazy_inv (p : ascii -> bool) (k : gostring -> option R)
      (s : gostring) (r : R) :
  rep_lazy p k s = Some r ->
  exists pre s', s = pre ++ s' /\ forallb p pre = true /\ k s' = Some r.
Proof.
  induction s as [|c s' IH]; simpl; intros Hrun.
  - destruct (k []) eqn:Hk; [|discriminate].
    exists [], []. rewrite Hk. auto.
  - destruct (k (c :: s')) eqn:Hk.
    + exists [], (c :: s'). rewrite Hk. auto.
    + destruct (p c) eqn:Hp; [|discriminate].
      destruct (IH Hrun) as (pre & s'' & -> & Hall & Hk').
      exists (c :: pre), s''. simpl. rewrite Hp, Hall. auto.
Qed.

Lemma strip_prefix_inv (pre s s' : gostring) :
  strip_prefix pre s = Some s' -> s = pre ++ s'.
Proof.
  revert s. induction pre as [|a pre IH]; intros s; simpl.
  - intros [= ->]. reflexivity.
  - destruct s as [|c s0]; [discriminate|].
    destruct (Ascii.eqb a c) eqn:Heq; [|discriminate].
    apply Ascii.eqb_eq in Heq. subst c. intros Hs.
    rewrite (IH _ Hs). reflexivity.
Qed.

Lemma alt_inv (alts : list gostring) (k : gostring -> option R)
      (s : gostring) (r : R) :
  alt alts k s = Some r ->
  exists a s', In a alts /\ s = a ++ s' /\ k s' = Some r.
Proof.
  induction alts as [|a more IH]; simpl; [discriminate|].
  intros Hrun.
  assert (Hmore : alt more k s = Some r ->
                  exists a0 s', (a = a0 \/ In a0 more) /\ s = a0 ++ s'
                                /\ k s' = Some r).
  { intros Hm. destruct (IH Hm) as (a0 & s' & Hin & Hs & Hk).
    exists a0, s'. auto. }
  destruct (strip_prefix a s) as [s'|] eqn:Hstrip; [|auto].
  destruct (k s') eqn:Hk; [|auto].
  exists a, s'. rewrite Hk.
  split; [left; reflexivity|]. split; [apply strip_prefix_inv; assumption|].
  assumption.
Qed.
End SearchFacts.

Section ExecFacts.
Import Regexp.

(** A stretch of the pattern without capture boundaries consumes a prefix
    of the input and leaves the boundaries seen so far as they are. *)
Lemma exec_markFree (its1 its2 : list item) (marks : list gostring)
      (s : gostring) (r : list gostring * gostring) :
  markFree its1 = true ->
  exec (its1 ++ its2) marks s = Some r ->
  exists consumed s', s = consumed ++ s' /\ exec its2 marks s' = Some r.
Proof.
  revert s. induction its1 as [|it its1 IH]; intros s Hfree Hrun.
  - exists [], s. auto.
  - destruct it as [p|alts|g p|]; simpl in Hfree, Hrun; [| | |discriminate].
    + destruct s as [|c s0]; [discriminate|].
      destruct (p c); [|discriminate].
      destruct (IH _ Hfree Hrun) as (consumed & s' & -> & Hk).
      exists (c :: consumed), s'. auto.
    + apply alt_inv in Hrun. destruct Hrun as (a & s0 & _ & -> & Hk).
      destruct (IH _ Hfree Hk) as (consumed & s' & -> & Hk').
      exists (a ++ consumed), s'. rewrite app_assoc. auto.
    + assert (Hinv : exists pre s0, s = pre ++ s0 /\ forallb p pre = true
                                    /\ exec (its1 ++ its2) marks s0 = Some r).
      { destruct g; [apply rep_greedy_inv | apply rep_lazy_inv]; exact Hrun. }
      destruct Hinv as (pre & s0 & -> & _ & Hk).
      destruct (IH _ Hfree Hk) as (consumed & s' & -> & Hk').
      exists (pre ++ consumed), s'. rewrite app_assoc. auto.
Qed.

Lemma between_app (x y : gostring) : between (x ++ y) y = x.
Proof.
  unfold between. rewrite length_app.
  replace (length x + length y - length y) with (length x) by lia.
  rewrite firstn_app, firstn_all, Nat.sub_diag. simpl. apply app_nil_r.
Qed.

(** What a match of the statement pattern captures: a column region and a
    table token, the token non-empty and made of bytes that are neither
    [\s] nor a semicolon. *)
Lemma selectRe_captures (s : gostring) (marks : list gostring)
      (rest : gostring) :
  exec Builder.selectRe [] s = Some (marks, rest) ->
  exists whole region c tok,
    FindStringSubmatch Builder.selectRe s = [whole; region; c :: tok]
    /\ forallb Builder.tableByte (c :: tok) = true.
Proof.
  intros Hrun. unfold FindStringSubmatch. rewrite Hrun.
  unfold Builder.selectRe in Hrun.
  change (exec ([Rep true space; fold_s; Cls (fold 101); Cls (fold 108);
                 Cls (fold 101); Cls (fold 99); Cls (fold 116); Cls space;
                 Rep true space]
                ++ Mark :: Rep false any :: Mark ::
                   ([Cls space; Rep true space; Cls (fold 102);
                     Cls (fold 114); Cls (fold 111); Cls (fold 109);
                     Cls space; Rep true space]
                    ++ [Mark; Cls Builder.tableByte;
                        Rep true Builder.tableByte; Mark]))
               [] s = Some (marks, rest)) in Hrun.
  apply exec_markFree in Hrun; [|reflexivity].
  destruct Hrun as (_ & s1 & _ & Hrun). simpl exec at 1 in Hrun.
  change (rep_lazy any
            (exec (Mark :: ([Cls space; Rep true space; Cls (fold 102);
                             Cls (fold 114); Cls (fold 111); Cls (fold 109);
                             Cls space; Rep true space]
                            ++ [Mark; Cls Builder.tableByte;
                                Rep true Builder.tableByte; Mark])) [s1])
            s1 = Some (marks, rest)) in Hrun.
  apply rep_lazy_inv in Hrun.
  destruct Hrun as (region & s2 & Hs1 & _ & Hrun).
  change (exec ([Cls space; Rep true space; Cls (fold 102);
                 Cls (fold 114); Cls (fold 111); Cls (fold 109);
                 Cls space; Rep true space]
                ++ [Mark; Cls Builder.tableByte;
                    Rep true Builder.tableByte; Mark]) [s2; s1] s2
          = Some (marks, rest)) in Hrun.
  apply exec_markFree in Hrun; [|reflexivity].
  destruct Hrun as (_ & s3 & _ & Hrun). simpl in Hrun.
  destruct s3 as [|c s3']; [discriminate|].
  destruct (Builder.tableByte c) eqn:Hc; [|discriminate].
  apply rep_greedy_inv in Hrun.
  destruct Hrun as (tok & s4 & -> & Htok & Hrun).
  injection Hrun as <- <-. simpl groups.
  exists (between s s4), region, c, tok. split.
  - f_equal. f_equal; [|f_equal].
    + rewrite Hs1. apply between_app.
    + change (c :: tok ++ s4) with ((c :: tok) ++ s4). apply between_app.
  - simpl. rewrite Hc. exact Htok.
Qed.
End ExecFacts.

Section StringsFacts.
Import Strings.

Lemma trimLeft_suffix (n : nat) :
  forall s, length s <= n -> exists pre, s = pre ++ trimLeft s.
Proof.
  induction n as [|n IH]; intros s Hlen.
  - destruct s; [exists []; reflexivity | simpl in Hlen; lia].
  - destruct s as [|c1 s1]; [exists []; reflexivity|].
    simpl in Hlen. simpl.
    destruct (asciiSpace c1).
    { destruct (IH s1 ltac:(lia)) as [pre Hpre].
      exists (c1 :: pre). simpl. rewrite <- Hpre. reflexivity. }
    destruct s1 as [|c2 s2]; [exists []; reflexivity|].
    simpl in Hlen.
    destruct (space2 c1 c2).
    { destruct (IH s2 ltac:(lia)) as [pre Hpre].
      exists (c1 :: c2 :: pre). simpl. rewrite <- Hpre. reflexivity. }
    destruct s2 as [|c3 s3]; [exists []; reflexivity|].
    simpl in Hlen.
    destruct (space3 c1 c2 c3); [|exists []; reflexivity].
    destruct (IH s3 ltac:(lia)) as [pre Hpre].
    exists (c1 :: c2 :: c3 :: pre). simpl. rewrite <- Hpre. reflexivity.
Qed.

Lemma trimLeftRev_suffix (n : nat) :
  forall r, length r <= n -> exists pre, r = pre ++ trimLeftRev r.
Proof.
  induction n as [|n IH]; intros r Hlen.
  - destruct r; [exists []; reflexivity | simpl in Hlen; lia].
  - destruct r as [|c1 r1]; [exists []; reflexivity|].
    simpl in Hlen. simpl.
    destruct (asciiSpace c1).
    { destruct (IH r1 ltac:(lia)) as [pre Hpre].
      exists (c1 :: pre). simpl. rewrite <- Hpre. reflexivity. }
    destruct r1 as [|c2 r2]; [exists []; reflexivity|].
    simpl in Hlen.
    destruct (space2 c2 c1).
    { destruct (IH r2 ltac:(lia)) as [pre Hpre].
      exists (c1 :: c2 :: pre). simpl. rewrite <- Hpre. reflexivity. }
    destruct r2 as [|c3 r3]; [exists []; reflexivity|].
    simpl in Hlen.
    destruct (space3 c3 c2 c1); [|exists []; reflexivity].
    destruct (IH r3 ltac:(lia)) as [pre Hpre].
    exists (c1 :: c2 :: c3 :: pre). simpl. rewrite <- Hpre. reflexivity.
Qed.

(** [TrimSpace] cuts a stretch out of its argument. *)
Lemma TrimSpace_infix (s : gostring) :
  exists pre post, s = pre ++ TrimSpace s ++ post.
Proof.
  destruct (trimLeft_suffix (length s) s (le_n _)) as [pre Hpre].
  destruct (trimLeftRev_suffix _ (rev (trimLeft s)) (le_n _))
    as [post Hpost].
  exists pre, (rev post). unfold TrimSpace, trimRight.
  rewrite <- rev_app_distr, <- Hpost, rev_involutive. exact Hpre.
Qed.

Lemma TrimSpace_Forall (P : ascii -> Prop) (s : gostring) :
  Forall P s -> Forall P (TrimSpace s).
Proof.
  intros Hall. destruct (TrimSpace_infix s) as (pre & post & Hs).
  rewrite Hs in Hall. apply Forall_app in Hall. destruct Hall as [_ Hall].
  apply Forall_app in Hall. tauto.
Qed.

Lemma TrimSuffix_Forall (P : ascii -> Prop) (s suffix : gostring) :
  Forall P s -> Forall P (TrimSuffix s suffix).
Proof.
  intros Hall. unfold TrimSuffix. destruct (HasSuffix s suffix); [|exact Hall].
  rewrite <- (firstn_skipn (length s - length suffix) s) in Hall.
  apply Forall_app in Hall. tauto.
Qed.

(** Where nothing is a semicolon there is no semicolon to trim. *)
Lemma TrimSuffix_no_semicolon (s : gostring) :
  Forall (fun c => c <> SEMI) s -> TrimSuffix s [SEMI] = s.
Proof.
  intros Hall. unfold TrimSuffix.
  destruct (HasSuffix s [SEMI]) eqn:Hsuf; [|reflexivity].
  exfalso. unfold HasSuffix in Hsuf. apply andb_true_iff in Hsuf.
  destruct Hsuf as [_ Heq]. unfold gostring_eqb in Heq.
  destruct (list_eq_dec ascii_dec (skipn (length s - length [SEMI]) s) [SEMI])
    as [Heq'|]; [clear Heq; rename Heq' into Heq|discriminate].
  rewrite <- (firstn_skipn (length s - length [SEMI]) s) in Hall.
  apply Forall_app in Hall. destruct Hall as [_ Hall]. rewrite Heq in Hall.
  inversion Hall; subst. congruence.
Qed.
End StringsFacts.

Section UnquoteFacts.
Import Builder.

Lemma byte_is_eq (n : nat) (c : ascii) :
  n < 256 -> byte_is n c = true -> c = chr n.
Proof.
  intros Hn Hc. unfold byte_is, code in Hc. apply Nat.eqb_eq in Hc.
  unfold chr. rewrite <- Hc. symmetry. apply ascii_nat_embedding.
Qed.

Lemma byte_is_chr (n : nat) : n < 256 -> byte_is n (chr n) = true.
Proof.
  intros Hn. unfold byte_is, code, chr. rewrite nat_ascii_embedding by lia.
  apply Nat.eqb_refl.
Qed.

Lemma nth_last_app (inner : gostring) (q d : ascii) :
  nth (length inner) (inner ++ [q]) d = q.
Proof.
  rewrite app_nth2 by lia. rewrite Nat.sub_diag. reflexivity.
Qed.

(** One layer of matching quotes comes off. *)
Lemma unquote_quoted (q : ascii) (inner : gostring) :
  isQuote q -> unquote (q :: inner ++ [q]) = inner.
Proof.
  intros Hq. unfold unquote.
  replace (length (q :: inner ++ [q])) with (S (S (length inner)))
    by (simpl; rewrite length_app; simpl; lia).
  change (2 <=? S (S (length inner))) with true. cbv iota.
  replace (S (S (length inner)) - 1) with (S (length inner)) by lia.
  change (nth 0 (q :: inner ++ [q]) SP) with q.
  change (nth (S (length inner)) (q :: inner ++ [q]) SP)
    with (nth (length inner) (inner ++ [q]) SP).
  rewrite nth_last_app.
  assert (Hcond : (byte_is 96 q && byte_is 96 q)
                  || (byte_is 34 q && byte_is 34 q)
                  || (byte_is 39 q && byte_is 39 q) = true).
  { destruct Hq as [-> | [-> | ->]]; reflexivity. }
  rewrite Hcond. unfold slice. simpl skipn.
  replace (S (length inner) - 1) with (length inner) by lia.
  rewrite firstn_app, firstn_all, Nat.sub_diag. simpl. apply app_nil_r.
Qed.

(** Any other token stays as it is. *)
Lemma unquote_other (t : gostring) : ~ quoted t -> unquote t = t.
Proof.
  intros Hnot. unfold unquote.
  destruct (2 <=? length t) eqn:Hlen; [|reflexivity].
  destruct (_ || _) eqn:Hcond at 1; [|reflexivity].
  exfalso. apply Hnot. apply Nat.leb_le in Hlen.
  destruct t as [|q t']; [simpl in Hlen; lia|].
  destruct (exists_last (l := t')) as (inner & z & ->).
  { intros ->. simpl in Hlen. lia. }
  replace (length (q :: inner ++ [z]) - 1) with (S (length inner)) in Hcond
    by (simpl; rewrite length_app; simpl; lia).
  change (nth 0 (q :: inner ++ [z]) SP) with q in Hcond.
  change (nth (S (length inner)) (q :: inner ++ [z]) SP)
    with (nth (length inner) (inner ++ [z]) SP) in Hcond.
  rewrite nth_last_app in Hcond.
  exists q, inner.
  apply orb_true_iff in Hcond. destruct Hcond as [Hcond|Hcond];
    [apply orb_true_iff in Hcond; destruct Hcond as [Hcond|Hcond]|];
    apply andb_true_iff in Hcond; destruct Hcond as [Hq Hz];
    apply byte_is_eq in Hq; try lia; apply byte_is_eq in Hz; try lia;
    subst q z; unfold isQuote, BACKTICK, DQUOTE, SQUOTE; auto.
Qed.

Lemma addColumn_fold (toks : list gostring) (acc : list gostring) :
  fold_left addColumn toks acc = acc ++ filter nonEmpty (map columnOf toks).
Proof.
  revert acc. induction toks as [|tok toks IH]; intros acc; simpl.
  - symmetry. apply app_nil_r.
  - rewrite IH. unfold addColumn at 1, nonEmpty at 2, columnOf at 2.
    destruct (gostring_eqb (unquote (Strings.TrimSpace tok)) []); simpl.
    + reflexivity.
    + rewrite <- app_assoc. reflexivity.
Qed.

(** [Parse] on a statement whose text, comments stripped, matches. *)
Lemma Parse_matched (stmt whole region tok : gostring) :
  Regexp.FindStringSubmatch selectRe (stripComments stmt)
  = [whole; region; tok] ->
  Parse stmt
  = (Strings.TrimSuffix (Strings.TrimSpace tok) [SEMI],
     filter nonEmpty (map columnOf (Strings.SplitSeq region COMMA))).
Proof.
  intros Hm. unfold Parse. rewrite Hm. simpl.
  rewrite addColumn_fold. reflexivity.
Qed.

Lemma Parse_unmatched (stmt : gostring) :
  Regexp.exec selectRe [] (stripComments stmt) = None ->
  Parse stmt = ([], []).
Proof.
  intros Hm. unfold Parse, Regexp.FindStringSubmatch. rewrite Hm.
  reflexivity.
Qed.
End UnquoteFacts.

Section ParseFacts.
Import Strings Regexp Builder.

(** C5: a statement that, comments stripped, does not match the pattern
    makes [Parse] return the empty table name and no columns. *)
Theorem C5_no_match_yields_nothing :
  forall stmt : gostring,
    exec selectRe [] (stripComments stmt) = None ->
    Parse stmt = ([], []).
Proof.
  exact Parse_unmatched.
Qed.

(** C7, amended: the columns [Parse] returns are the tokens of the
    captured region, in order, each trimmed and with one layer of matching
    quotes taken off, without those that end up empty; a token wrapped in
    a matching pair of backticks, double quotes or single quotes loses
    exactly that pair, any other token is unchanged. *)
Theorem C7_columns_unquoted_and_nonempty :
  forall stmt whole region table : gostring,
    FindStringSubmatch selectRe (stripComments stmt) = [whole; region; table] ->
    snd (Parse stmt) = filter nonEmpty (map columnOf (SplitSeq region COMMA))
    /\ (forall q inner, isQuote q -> unquote (q :: inner ++ [q]) = inner)
    /\ (forall t, ~ quoted t -> unquote t = t).
Proof.
  intros stmt whole region table Hm.
  rewrite (Parse_matched _ _ _ _ Hm). simpl.
  split; [reflexivity|]. split.
  - intros q inner Hq. apply unquote_quoted. exact Hq.
  - exact unquote_other.
Qed.

Lemma tableByte_spec (c : ascii) :
  tableByte c = true -> space c = false /\ c <> SEMI.
Proof.
  unfold tableByte. intros Hc. apply negb_true_iff in Hc.
  apply orb_false_iff in Hc. destruct Hc as [Hs Hsemi]. split; [exact Hs|].
  intros ->. discriminate.
Qed.

Lemma filter_nonEmpty (cols : list gostring) :
  Forall (fun col => col <> []) (filter nonEmpty cols).
Proof.
  apply Forall_forall. intros col Hin. apply filter_In in Hin.
  destruct Hin as [_ Hne]. intros ->. discriminate.
Qed.

(** C10, amended: the table name [Parse] returns holds none of the bytes
    the pattern calls white space (tab, line feed, form feed, carriage
    return, space) and no semicolon; no returned column is empty; and the
    table name is empty only when there are no columns either or when the
    captured table token was nothing but white space of other kinds. *)
Theorem C10_parse_output_shape :
  forall stmt : gostring,
    let '(table, columns) := Parse stmt in
    Forall (fun c => space c = false /\ c <> SEMI) table
    /\ Forall (fun col => col <> []) columns
    /\ (table = [] ->
        columns = []
        \/ exists whole region tok,
            FindStringSubmatch selectRe (stripComments stmt)
            = [whole; region; tok]
            /\ tok <> [] /\ TrimSpace tok = []).
Proof.
  intros stmt.
  destruct (exec selectRe [] (stripComments stmt)) as [[marks rest]|] eqn:Hrun.
  - destruct (selectRe_captures _ _ _ Hrun)
      as (whole & region & c & tok & Hm & Htok).
    rewrite (Parse_matched _ _ _ _ Hm).
    assert (Hbytes : Forall (fun c => space c = false /\ c <> SEMI)
                            (TrimSpace (c :: tok))).
    { apply TrimSpace_Forall. apply Forall_forall. intros x Hx.
      apply tableByte_spec. rewrite forallb_forall in Htok. auto. }
    assert (Hsemi : Forall (fun c => c <> SEMI) (TrimSpace (c :: tok))).
    { eapply Forall_impl; [|exact Hbytes]. simpl. tauto. }
    rewrite (TrimSuffix_no_semicolon _ Hsemi).
    split; [exact Hbytes|]. split; [apply filter_nonEmpty|].
    intros Hempty. right. exists whole, region, (c :: tok).
    split; [exact Hm|]. split; [discriminate | exact Hempty].
  - rewrite (Parse_unmatched _ Hrun).
    split; [constructor|]. split; [constructor|]. intros _. left. reflexivity.
Qed.

(** C1: a block comment on one line is stripped and the statement parses
    as the claim says; the same comment with a line break inside stays in
    the text and ends up in the column. *)
Theorem C1_block_comment_with_line_break :
  Parse (str "SELECT id, name /* display name */ FROM users")
  = (str "users", [str "id"; str "name"])
  /\ Parse (str "SELECT id, name /* display
name */ FROM users")
     = (str "users", [str "id"; str "name /* display
name */"]).
Proof.
  split; vm_compute; reflexivity.
Qed.
End ParseFacts.

(** * A skeleton from a statement that did not parse *)

Section FailedParse.
Import Db.

Lemma refine_Columns (rs : list refinement) (sb : SelectBuilder) :
  Columns (refine rs sb) = Columns sb.
Proof.
  revert sb. induction rs as [|r rs IH]; intros sb; simpl; [reflexivity|].
  unfold refine in IH. rewrite IH. destruct r; reflexivity.
Qed.

Lemma ToSql_noColumns (sb : SelectBuilder) :
  Columns sb = [] -> ToSql sb = ([], [], Some noColumns).
Proof.
  intros Hc. unfold ToSql. rewrite Hc. reflexivity.
Qed.

Lemma failed_parse_noColumns (stmt : gostring) (rs : list refinement) :
  Builder.Parse stmt = ([], []) ->
  ToSql (refine rs (SelectBuilderFromStmt stmt)) = ([], [], Some noColumns).
Proof.
  intros Hp. apply ToSql_noColumns. rewrite refine_Columns.
  unfold SelectBuilderFromStmt. rewrite Hp. reflexivity.
Qed.

(** C4, amended: a statement that did not parse gives a skeleton that,
    also with predicates, orderings and limits added, does not render.
    A query call that reaches the interception branch then returns the
    rendering error and the wrapped handle sees nothing, and every call on
    the unconditional interceptor panics with that error before the
    wrapped handle is reached; a query-single-row call, an exec call and a
    prepare call on the guarded interceptor go to the wrapped handle with
    the caller's own statement. *)
Theorem C4_failed_parse_calls :
  forall (stmt : gostring) (rs : list refinement),
    Builder.Parse stmt = ([], []) ->
    let sb := refine rs (SelectBuilderFromStmt stmt) in
    ToSql sb = ([], [], Some noColumns)
    /\ forall (D : Driver) (raw : DBTX) (ctx : Ctx) (query : gostring)
              (args : list value) (w : World),
        (forall guard,
            guard = [] \/ query = guard ->
            failsFast snd w
              ((Selector.SelectForQuery raw guard sb).(QueryContext)
                 ctx query args w)
            /\ (Selector.SelectForQuery raw guard sb).(QueryRowContext)
                 ctx query args w
               = raw.(QueryRowContext) ctx query args w)
        /\ (forall guard,
               (Selector.SelectForQuery raw guard sb).(ExecContext)
                 ctx query args w
               = raw.(ExecContext) ctx query args w
               /\ (Selector.SelectForQuery raw guard sb).(PrepareContext)
                    ctx query w
                  = raw.(PrepareContext) ctx query w)
        /\ (Selecter.Select raw sb).(QueryContext) ctx query args w
           = Panic noColumns w
        /\ (Selecter.Select raw sb).(QueryRowContext) ctx query args w
           = Panic noColumns w
        /\ (Selecter.Select raw sb).(ExecContext) ctx query args w
           = Panic noColumns w
        /\ (Selecter.Select raw sb).(PrepareContext) ctx query w
           = Panic noColumns w.
Proof.
  intros stmt rs Hp sb.
  pose proof (failed_parse_noColumns stmt rs Hp) as Hsql. fold sb in Hsql.
  split; [exact Hsql|].
  intros D raw ctx query args w. split; [|split].
  - intros guard Hor.
    destruct (render_failure raw sb guard ctx query args w
                _ _ _ Hsql Hor) as [Hq Hrow].
    rewrite Hq. split; [|exact Hrow].
    split; [reflexivity | discriminate].
  - intros guard. split; reflexivity.
  - simpl. unfold Selecter.QueryContext, Selecter.QueryRowContext,
      Selecter.ExecContext, Selecter.PrepareContext, bind, MustSql.
    cbn [Selecter.sb Selecter.raw]. rewrite Hsql. repeat split; reflexivity.
Qed.
End FailedParse.


(** * Canonical statements parse to their table and columns *)

Section Forward.
Import Regexp Builder Canonical.
Variable R : Type.

Lemma rep_greedy_skip (p : ascii -> bool) (k : gostring -> option R)
      (ws s : gostring) (r : R) :
  forallb p ws = true -> leaves p s -> k s = Some r ->
  rep_greedy p k (ws ++ s) = Some r.
Proof.
  intros Hws Hs Hk. induction ws as [|c ws IH]; simpl.
  - destruct s as [|c s']; simpl; [exact Hk|].
    simpl in Hs. rewrite Hs. exact Hk.
  - simpl in Hws. apply andb_true_iff in Hws. destruct Hws as [Hc Hws].
    rewrite Hc, (IH Hws). reflexivity.
Qed.

Lemma rep_greedy_none (p : ascii -> bool) (k : gostring -> option R)
      (ws s : gostring) :
  forallb p ws = true ->
  (forall c x, p c = true -> k (c :: x) = None) ->
  leaves p s -> k s = None ->
  rep_greedy p k (ws ++ s) = None.
Proof.
  intros Hws Hfail Hs Hk. induction ws as [|c ws IH]; simpl.
  - destruct s as [|c s']; simpl; [exact Hk|].
    simpl in Hs. rewrite Hs. exact Hk.
  - simpl in Hws. apply andb_true_iff in Hws. destruct Hws as [Hc Hws].
    rewrite Hc, (IH Hws). apply Hfail. exact Hc.
Qed.

(** The lazy repetition passes over text at no place of which the rest of
    the pattern matches. *)
Lemma rep_lazy_skip (k : gostring -> option R) (x s : gostring) :
  (forall a b, x = a ++ b -> b <> [] -> k (b ++ s) = None) ->
  rep_lazy any k (x ++ s) = rep_lazy any k s.
Proof.
  induction x as [|c x IH]; intros Hfail; [reflexivity|].
  pose proof (Hfail [] (c :: x) eq_refl ltac:(discriminate)) as Hhere.
  simpl in Hhere. simpl. rewrite Hhere.
  apply IH. intros a b Hx Hb. apply (Hfail (c :: a) b); [|exact Hb].
  simpl. rewrite Hx. reflexivity.
Qed.

Lemma rep_lazy_skip_class (p : ascii -> bool) (k : gostring -> option R)
      (x s : gostring) :
  forallb p x = true ->
  (forall a b, x = a ++ b -> b <> [] -> k (b ++ s) = None) ->
  rep_lazy p k (x ++ s) = rep_lazy p k s.
Proof.
  induction x as [|c x IH]; intros Hx Hfail; [reflexivity|].
  simpl in Hx. apply andb_true_iff in Hx. destruct Hx as [Hc Hx].
  pose proof (Hfail [] (c :: x) eq_refl ltac:(discriminate)) as Hhere.
  simpl in Hhere. simpl. rewrite Hhere, Hc.
  apply IH; [exact Hx|]. intros a b Hab Hb.
  apply (Hfail (c :: a) b); [|exact Hb].
  simpl. rewrite Hab. reflexivity.
Qed.

Lemma rep_lazy_hit (p : ascii -> bool) (k : gostring -> option R)
      (s : gostring) (r : R) :
  k s = Some r -> rep_lazy p k s = Some r.
Proof.
  intros Hk. destruct s; simpl; rewrite Hk; reflexivity.
Qed.
End Forward.

Section PatternFacts.
Import Regexp Builder Canonical.

Lemma exec_Cls (p : ascii -> bool) (rest : list item) (marks : list gostring)
      (c : ascii) (s : gostring) :
  exec (Cls p :: rest) marks (c :: s)
  = if p c then exec rest marks s else None.
Proof. reflexivity. Qed.

Lemma exec_Rep_greedy (p : ascii -> bool) (rest : list item)
      (marks : list gostring) (s : gostring) :
  exec (Rep true p :: rest) marks s = rep_greedy p (exec rest marks) s.
Proof. reflexivity. Qed.

Lemma exec_Rep_lazy (p : ascii -> bool) (rest : list item)
      (marks : list gostring) (s : gostring) :
  exec (Rep false p :: rest) marks s = rep_lazy p (exec rest marks) s.
Proof. reflexivity. Qed.

Lemma exec_Mark (rest : list item) (marks : list gostring) (s : gostring) :
  exec (Mark :: rest) marks s = exec rest (s :: marks) s.
Proof. reflexivity. Qed.

Lemma selectRe_stretches :
  selectRe
  = Rep true space :: fold_s :: lits [101; 108; 101; 99; 116]
    ++ Cls space :: Rep true space :: Mark :: Rep false any :: Mark
    :: afterRegion.
Proof. reflexivity. Qed.

Lemma space_codes (c : ascii) :
  space c = true ->
  code c = 9 \/ code c = 10 \/ code c = 12 \/ code c = 13 \/ code c = 32.
Proof.
  unfold space, byte_is. intros Hc.
  repeat (apply orb_true_iff in Hc; destruct Hc as [Hc|Hc]);
    apply Nat.eqb_eq in Hc; auto.
Qed.

Lemma fold_codes (l : nat) (c : ascii) :
  fold l c = true -> code c = l \/ code c = l - 32.
Proof.
  unfold fold, byte_is. intros Hc.
  apply orb_true_iff in Hc. destruct Hc as [Hc|Hc];
    apply Nat.eqb_eq in Hc; auto.
Qed.

Lemma COMMA_code : code COMMA = 44.
Proof. reflexivity. Qed.

Lemma identByte_codes (c : ascii) :
  identByte c = true ->
  33 <= code c <= 126
  /\ code c <> 44 /\ code c <> 59 /\ code c <> 45 /\ code c <> 47
  /\ code c <> 39 /\ code c <> 34 /\ code c <> 96.
Proof.
  unfold identByte, byte_is. intros Hc.
  apply andb_true_iff in Hc. destruct Hc as [Hc Hnot].
  apply andb_true_iff in Hc. destruct Hc as [Hlo Hhi].
  apply Nat.leb_le in Hlo. apply Nat.leb_le in Hhi.
  apply negb_true_iff in Hnot.
  repeat (apply orb_false_iff in Hnot; destruct Hnot as [Hnot ?]).
  repeat match goal with
         | H : (_ =? _) = false |- _ => apply Nat.eqb_neq in H
         end.
  repeat split; assumption.
Qed.

Lemma identByte_not_space (c : ascii) : identByte c = true -> space c = false.
Proof.
  intros Hc. apply identByte_codes in Hc.
  destruct (space c) eqn:Hs; [|reflexivity].
  apply space_codes in Hs. lia.
Qed.

Lemma identByte_tableByte (c : ascii) :
  identByte c = true -> tableByte c = true.
Proof.
  intros Hc. unfold tableByte. rewrite (identByte_not_space _ Hc).
  apply identByte_codes in Hc. unfold byte_is.
  destruct (code c =? 59) eqn:He; [apply Nat.eqb_eq in He; lia | reflexivity].
Qed.

Lemma fold_not_stop (l : nat) (c : ascii) :
  97 <= l <= 122 -> space c = true \/ c = COMMA -> fold l c = false.
Proof.
  intros Hl Hc. destruct (fold l c) eqn:Hf; [|reflexivity].
  apply fold_codes in Hf. destruct Hc as [Hc| ->].
  - apply space_codes in Hc. lia.
  - rewrite COMMA_code in Hf. lia.
Qed.

Lemma fold_not_space (l : nat) (c : ascii) :
  97 <= l <= 122 -> fold l c = true -> space c = false.
Proof.
  intros Hl Hf. destruct (space c) eqn:Hs; [|reflexivity].
  rewrite (fold_not_stop l c Hl (or_introl Hs)) in Hf. discriminate.
Qed.

Lemma kwFrom_letters : letters kwFrom.
Proof. repeat constructor; lia. Qed.

Lemma kwSelect_letters : letters kwSelect.
Proof. repeat constructor; lia. Qed.

(** A keyword in the text is matched letter by letter. *)
Lemma keyword_match (kw : list nat) (w : gostring) (rest : list item)
      (marks : list gostring) (s : gostring) :
  isKeyword kw w = true ->
  exec (lits kw ++ rest) marks (w ++ s) = exec rest marks s.
Proof.
  revert w. induction kw as [|l kw IH]; intros w Hw.
  - destruct w; [reflexivity | discriminate].
  - destruct w as [|c w]; [discriminate|].
    simpl in Hw. apply andb_true_iff in Hw. destruct Hw as [Hc Hw].
    simpl. rewrite Hc. apply IH. exact Hw.
Qed.

(** A name that is not the keyword is not taken for it. *)
Lemma keyword_mismatch (kw : list nat) (w : gostring) (rest : list item)
      (marks : list gostring) (s : gostring) :
  letters kw -> forallb identByte w = true -> isKeyword kw w = false ->
  stops s ->
  exec (lits kw ++ Cls space :: rest) marks (w ++ s) = None.
Proof.
  intros Hkw. revert w. induction Hkw as [|l kw Hl Hkw IH]; intros w Hid Hw Hs.
  - destruct w as [|c w]; [discriminate|].
    simpl in Hid. apply andb_true_iff in Hid. destruct Hid as [Hc _].
    simpl. rewrite (identByte_not_space _ Hc). reflexivity.
  - destruct w as [|c w].
    + simpl. destruct s as [|c s]; [reflexivity|].
      simpl in Hs. rewrite (fold_not_stop l c Hl Hs). reflexivity.
    + simpl in Hid. apply andb_true_iff in Hid. destruct Hid as [_ Hid].
      simpl in Hw. simpl. destruct (fold l c); [|reflexivity].
      apply IH; assumption.
Qed.

Lemma fold_s_match (c : ascii) (rest : list item) (marks : list gostring)
      (s : gostring) :
  fold 115 c = true ->
  exec (fold_s :: rest) marks (c :: s) = exec rest marks s.
Proof.
  intros Hc. apply orb_true_iff in Hc.
  destruct Hc as [Hc|Hc]; apply byte_is_eq in Hc; try lia; subst c;
    simpl; destruct (exec rest marks s); reflexivity.
Qed.
End PatternFacts.

Section CanonicalSearch.
Import Regexp Builder Canonical.

Lemma blank_cons (g : gostring) :
  nonEmpty g = true -> blank g = true ->
  exists c g', g = c :: g' /\ space c = true /\ forallb space g' = true.
Proof.
  intros Hne Hb. destruct g as [|c g']; [discriminate|].
  simpl in Hb. apply andb_true_iff in Hb. destruct Hb as [Hc Hg].
  exists c, g'. auto.
Qed.

Lemma identifier_cons (x : gostring) :
  identifier x = true ->
  exists c x', x = c :: x' /\ identByte c = true
               /\ forallb identByte x' = true.
Proof.
  unfold identifier. intros Hx. apply andb_true_iff in Hx.
  destruct Hx as [Hne Hid]. destruct x as [|c x']; [discriminate|].
  simpl in Hid. apply andb_true_iff in Hid. destruct Hid as [Hc Hx'].
  exists c, x'. auto.
Qed.

Lemma identifier_bytes (x : gostring) :
  identifier x = true -> forallb identByte x = true.
Proof.
  unfold identifier. intros Hx. apply andb_true_iff in Hx. tauto.
Qed.

Lemma keyword_cons (l : nat) (kw : list nat) (w : gostring) :
  isKeyword (l :: kw) w = true ->
  exists c w', w = c :: w' /\ fold l c = true /\ isKeyword kw w' = true.
Proof.
  destruct w as [|c w']; [discriminate|]. simpl. intros Hw.
  apply andb_true_iff in Hw. destruct Hw as [Hc Hw].
  exists c, w'. auto.
Qed.

Lemma afterRegion_nonspace (marks : list gostring) (c : ascii) (y : gostring) :
  space c = false -> exec afterRegion marks (c :: y) = None.
Proof.
  intros Hc. simpl. rewrite Hc. reflexivity.
Qed.

Lemma afterGap_other (marks : list gostring) (c : ascii) (y : gostring) :
  fold 102 c = false -> exec afterGap marks (c :: y) = None.
Proof.
  intros Hc. simpl. rewrite Hc. reflexivity.
Qed.

(** Inside white space that is not followed by the keyword, the rest of the
    pattern does not match. *)
Lemma afterRegion_blank (marks : list gostring) (ws s0 : gostring) :
  blank ws = true -> leaves space s0 ->
  exec afterGap marks s0 = None ->
  exec afterRegion marks (ws ++ s0) = None.
Proof.
  intros Hws Hs0 Hgap. destruct ws as [|c ws].
  - destruct s0 as [|c0 s0]; [reflexivity|].
    apply afterRegion_nonspace. exact Hs0.
  - simpl in Hws. apply andb_true_iff in Hws. destruct Hws as [Hc Hws].
    simpl. rewrite Hc.
    change (rep_greedy space (exec afterGap marks) (ws ++ s0) = None).
    apply rep_greedy_none; try assumption.
    intros c0 x Hc0. apply afterGap_other.
    apply fold_not_stop; [lia | left; exact Hc0].
Qed.

Lemma forallb_suffix {A} (p : A -> bool) (x a b : list A) :
  forallb p x = true -> x = a ++ b -> forallb p b = true.
Proof.
  intros Hx ->. rewrite forallb_app in Hx. apply andb_true_iff in Hx. tauto.
Qed.

Section Lazy.
Variable ms : list gostring.
Let k := exec (Mark :: afterRegion) ms.

Lemma lazy_over_name (x s : gostring) :
  forallb identByte x = true ->
  rep_lazy any k (x ++ s) = rep_lazy any k s.
Proof.
  intros Hx. apply rep_lazy_skip. intros a b Hab Hb.
  pose proof (forallb_suffix _ _ _ _ Hx Hab) as Hbb.
  destruct b as [|c b]; [contradiction|].
  simpl in Hbb. apply andb_true_iff in Hbb. destruct Hbb as [Hc _].
  unfold k. simpl exec. rewrite (identByte_not_space _ Hc). reflexivity.
Qed.

Lemma lazy_over_comma (s : gostring) :
  rep_lazy any k (COMMA :: s) = rep_lazy any k s.
Proof.
  reflexivity.
Qed.

Lemma lazy_over_blank (ws s0 : gostring) :
  blank ws = true -> leaves space s0 ->
  (forall marks, exec afterGap marks s0 = None) ->
  rep_lazy any k (ws ++ s0) = rep_lazy any k s0.
Proof.
  intros Hws Hs0 Hgap. apply rep_lazy_skip. intros a b Hab Hb.
  pose proof (forallb_suffix _ _ _ _ Hws Hab) as Hbb.
  unfold k.
  change (exec afterRegion ((b ++ s0) :: ms) (b ++ s0) = None).
  apply afterRegion_blank; auto.
Qed.
End Lazy.

Variable c : statement.
Hypothesis Hwf : wellFormed c = true.

Lemma wellFormed_inv :
  blank c.(lead) = true
  /\ isKeyword kwSelect c.(selectWord) = true
  /\ nonEmpty c.(gap1) = true /\ blank c.(gap1) = true
  /\ columnName c.(firstColumn) = true
  /\ forallb nextColumnOk c.(moreColumns) = true
  /\ nonEmpty c.(gap2) = true /\ blank c.(gap2) = true
  /\ isKeyword kwFrom c.(fromWord) = true
  /\ nonEmpty c.(gap3) = true /\ blank c.(gap3) = true
  /\ identifier c.(table) = true
  /\ forallb (fun b => space b || byte_is 59 b) c.(tail) = true.
Proof.
  pose proof Hwf as H. unfold wellFormed in H.
  repeat (apply andb_true_iff in H; destruct H as [H ?]).
  repeat split; assumption.
Qed.

Lemma columnName_inv (x : gostring) :
  columnName x = true -> identifier x = true /\ isKeyword kwFrom x = false.
Proof.
  unfold columnName. intros Hx. apply andb_true_iff in Hx.
  destruct Hx as [Hid Hkw]. apply negb_true_iff in Hkw. auto.
Qed.

Lemma tail_leaves_table : leaves tableByte c.(tail).
Proof.
  destruct wellFormed_inv as (_&_&_&_&_&_&_&_&_&_&_&_&Htail).
  destruct c.(tail) as [|b t]; [exact I|].
  simpl in Htail. apply andb_true_iff in Htail. destruct Htail as [Hb _].
  simpl. unfold tableByte. apply negb_false_iff. exact Hb.
Qed.

(** From the white space before [FROM] on, the rest of the pattern matches
    up to the end of the table name. *)
Lemma afterRegion_at_table (marks : list gostring) :
  exec afterRegion marks (tableText c)
  = Some (rev (c.(tail) :: (c.(table) ++ c.(tail)) :: marks), c.(tail)).
Proof.
  destruct wellFormed_inv
    as (_&_&_&_&_&_& Hne2 & Hb2 & Hfrom & Hne3 & Hb3 & Htable &_).
  destruct (blank_cons _ Hne2 Hb2) as (g2 & gap2' & Hg2 & Hs2 & Hrest2).
  destruct (blank_cons _ Hne3 Hb3) as (g3 & gap3' & Hg3 & Hs3 & Hrest3).
  destruct (identifier_cons _ Htable) as (t0 & table' & Ht & Ht0 & Htable').
  destruct (keyword_cons _ _ _ Hfrom) as (f0 & from' & Hf & Hf0 & _).
  pose proof tail_leaves_table as Htail.
  unfold tableText, afterRegion.
  destruct c.(gap2) as [|g2x gap2x]; [discriminate|].
  injection Hg2 as -> ->.
  rewrite <- app_comm_cons, exec_Cls, Hs2, exec_Rep_greedy.
  apply rep_greedy_skip; [exact Hrest2 | |].
  { rewrite Hf. simpl. apply (fold_not_space 102); [lia | exact Hf0]. }
  unfold afterGap. rewrite (keyword_match _ _ _ _ _ Hfrom).
  destruct c.(gap3) as [|g3x gap3x]; [discriminate|].
  injection Hg3 as -> ->.
  rewrite <- app_comm_cons, exec_Cls, Hs3, exec_Rep_greedy.
  apply rep_greedy_skip; [exact Hrest3 | |].
  { rewrite Ht. simpl. apply identByte_not_space. exact Ht0. }
  rewrite exec_Mark.
  destruct c.(table) as [|t0x tablex]; [discriminate|].
  injection Ht as -> ->.
  rewrite <- app_comm_cons, exec_Cls, (identByte_tableByte _ Ht0),
    exec_Rep_greedy.
  apply rep_greedy_skip.
  - rewrite forallb_forall in Htable'. apply forallb_forall.
    intros x Hx. apply identByte_tableByte. auto.
  - exact Htail.
  - reflexivity.
Qed.

Lemma tableText_stops : stops (tableText c).
Proof.
  destruct wellFormed_inv as (_&_&_&_&_&_& Hne2 & Hb2 &_).
  destruct (blank_cons _ Hne2 Hb2) as (g2 & gap2' & Hg2 & Hs2 & _).
  unfold tableText. rewrite Hg2. simpl. left. exact Hs2.
Qed.

Lemma stops_after_blank (ws s : gostring) :
  blank ws = true -> stops s -> stops (ws ++ s).
Proof.
  intros Hws Hs. destruct ws as [|b ws]; [exact Hs|].
  simpl in Hws. apply andb_true_iff in Hws. simpl. left. tauto.
Qed.

Lemma nextColumns_stops (more : list (gostring * gostring * gostring)) :
  forallb nextColumnOk more = true ->
  stops (concat (map nextColumn more) ++ tableText c).
Proof.
  destruct more as [|[[before after] col] more]; intros Hok.
  - exact tableText_stops.
  - simpl in Hok. apply andb_true_iff in Hok. destruct Hok as [Hx _].
    apply andb_true_iff in Hx. destruct Hx as [Hx _].
    apply andb_true_iff in Hx. destruct Hx as [Hbefore _].
    simpl. rewrite <- !app_assoc. apply stops_after_blank; [exact Hbefore|].
    simpl. right. reflexivity.
Qed.

(** The lazy region passes over the columns that follow the first. *)
Lemma lazy_over_columns (ms : list gostring)
      (more : list (gostring * gostring * gostring)) :
  forallb nextColumnOk more = true ->
  rep_lazy any (exec (Mark :: afterRegion) ms)
           (concat (map nextColumn more) ++ tableText c)
  = rep_lazy any (exec (Mark :: afterRegion) ms) (tableText c).
Proof.
  induction more as [|[[before after] col] more IH]; intros Hok;
    [reflexivity|].
  pose proof Hok as Hok'. simpl in Hok.
  apply andb_true_iff in Hok. destruct Hok as [Hx Hmore].
  apply andb_true_iff in Hx. destruct Hx as [Hx Hcol].
  apply andb_true_iff in Hx. destruct Hx as [Hbefore Hafter].
  destruct (columnName_inv _ Hcol) as [Hid Hkw].
  destruct (identifier_cons _ Hid) as (c0 & col' & Hc & Hc0 & _).
  cbn [map concat nextColumn]. rewrite <- !app_assoc.
  rewrite lazy_over_blank;
    [|exact Hbefore | reflexivity | intros marks; reflexivity].
  cbn [app]. rewrite lazy_over_comma.
  rewrite lazy_over_blank; [|exact Hafter | |].
  - rewrite lazy_over_name by (apply identifier_bytes; exact Hid).
    apply IH. exact Hmore.
  - rewrite Hc. simpl. apply identByte_not_space. exact Hc0.
  - intros marks. unfold afterGap. apply keyword_mismatch.
    + exact kwFrom_letters.
    + apply identifier_bytes. exact Hid.
    + exact Hkw.
    + apply nextColumns_stops. exact Hmore.
Qed.

Lemma lazy_at_columns (ms : list gostring) :
  rep_lazy any (exec (Mark :: afterRegion) ms) (columnsText c ++ tableText c)
  = Some (rev (c.(tail) :: (c.(table) ++ c.(tail)) :: tableText c :: ms),
          c.(tail)).
Proof.
  destruct wellFormed_inv as (_&_&_&_& Hfirst & Hmore &_).
  destruct (columnName_inv _ Hfirst) as [Hid _].
  unfold columnsText. rewrite <- app_assoc.
  rewrite lazy_over_name by (apply identifier_bytes; exact Hid).
  rewrite lazy_over_columns by exact Hmore.
  apply rep_lazy_hit. rewrite exec_Mark. apply afterRegion_at_table.
Qed.

(** The search on a canonical statement: the capture boundaries sit around
    the column list and around the table name. *)
Lemma exec_canonical :
  exec selectRe [] (text c)
  = Some ([columnsText c ++ tableText c; tableText c;
           c.(table) ++ c.(tail); c.(tail)], c.(tail)).
Proof.
  destruct wellFormed_inv
    as (Hlead & Hselect & Hne1 & Hb1 & Hfirst & Hmore &_).
  destruct (keyword_cons _ _ _ Hselect) as (s0 & select' & Hs & Hs0 & Hsel').
  destruct (blank_cons _ Hne1 Hb1) as (g1 & gap1' & Hg1 & Hsp1 & Hrest1).
  destruct (columnName_inv _ Hfirst) as [Hid Hkw].
  destruct (identifier_cons _ Hid) as (c0 & col' & Hc & Hc0 & _).
  rewrite selectRe_stretches. unfold text.
  rewrite exec_Rep_greedy.
  apply rep_greedy_skip; [exact Hlead | |].
  { rewrite Hs. simpl. apply (fold_not_space 115); [lia | exact Hs0]. }
  rewrite Hs, <- app_comm_cons, fold_s_match by exact Hs0.
  rewrite (keyword_match _ _ _ _ _ Hsel').
  rewrite Hg1, <- app_comm_cons, exec_Cls, Hsp1, exec_Rep_greedy.
  apply rep_greedy_skip; [exact Hrest1 | |].
  { unfold columnsText. rewrite Hc. simpl. apply identByte_not_space.
    exact Hc0. }
  rewrite exec_Mark, exec_Rep_lazy, lazy_at_columns. reflexivity.
Qed.
End CanonicalSearch.

Section TrimFacts.
Import Strings Builder Canonical.

Lemma asciiSpace_codes (c : ascii) : asciiSpace c = true -> code c <= 32.
Proof.
  unfold asciiSpace, byte_is. intros Hc.
  repeat (apply orb_true_iff in Hc; destruct Hc as [Hc|Hc]);
    apply Nat.eqb_eq in Hc; lia.
Qed.

Lemma space2_codes (c1 c2 : ascii) :
  space2 c1 c2 = true -> code c1 = 194 /\ 133 <= code c2.
Proof.
  unfold space2, byte_is. intros Hc.
  apply andb_true_iff in Hc. destruct Hc as [H1 H2].
  apply Nat.eqb_eq in H1.
  apply orb_true_iff in H2. destruct H2 as [H2|H2];
    apply Nat.eqb_eq in H2; lia.
Qed.

Lemma space3_codes (c1 c2 c3 : ascii) :
  space3 c1 c2 c3 = true -> 225 <= code c1 /\ 128 <= code c3.
Proof.
  unfold space3, byte_is. intros Hc.
  repeat (apply orb_true_iff in Hc; destruct Hc as [Hc|Hc]);
    repeat (apply andb_true_iff in Hc; destruct Hc as [Hc ?]);
    repeat match goal with
           | H : (_ =? _) = true |- _ => apply Nat.eqb_eq in H
           | H : (_ <=? _) = true |- _ => apply Nat.leb_le in H
           | H : (_ || _) = true |- _ =>
               apply orb_true_iff in H; destruct H as [H|H]
           | H : (_ && _) = true |- _ =>
               apply andb_true_iff in H; destruct H as [H ?]
           end; lia.
Qed.

Lemma space_asciiSpace (c : ascii) :
  Regexp.space c = true -> asciiSpace c = true.
Proof.
  unfold Regexp.space, asciiSpace. intros Hc.
  repeat (apply orb_true_iff in Hc; destruct Hc as [Hc|Hc]);
    rewrite Hc; rewrite ?orb_true_r; reflexivity.
Qed.

Lemma trimLeft_blank (a y : gostring) :
  blank a = true -> trimLeft (a ++ y) = trimLeft y.
Proof.
  induction a as [|c a IH]; intros Ha; [reflexivity|].
  simpl in Ha. apply andb_true_iff in Ha. destruct Ha as [Hc Ha].
  simpl. rewrite (space_asciiSpace _ Hc). apply IH. exact Ha.
Qed.

Lemma trimLeftRev_blank (a y : gostring) :
  blank a = true -> trimLeftRev (a ++ y) = trimLeftRev y.
Proof.
  induction a as [|c a IH]; intros Ha; [reflexivity|].
  simpl in Ha. apply andb_true_iff in Ha. destruct Ha as [Hc Ha].
  simpl. rewrite (space_asciiSpace _ Hc). apply IH. exact Ha.
Qed.

Lemma trimLeft_ident (c : ascii) (y : gostring) :
  identByte c = true -> trimLeft (c :: y) = c :: y.
Proof.
  intros Hc. apply identByte_codes in Hc. simpl.
  destruct (asciiSpace c) eqn:H1; [apply asciiSpace_codes in H1; lia|].
  destruct y as [|c2 y]; [reflexivity|].
  destruct (space2 c c2) eqn:H2; [apply space2_codes in H2; lia|].
  destruct y as [|c3 y]; [reflexivity|].
  destruct (space3 c c2 c3) eqn:H3; [apply space3_codes in H3; lia|].
  reflexivity.
Qed.

Lemma trimLeftRev_ident (c : ascii) (y : gostring) :
  identByte c = true -> trimLeftRev (c :: y) = c :: y.
Proof.
  intros Hc. apply identByte_codes in Hc. simpl.
  destruct (asciiSpace c) eqn:H1; [apply asciiSpace_codes in H1; lia|].
  destruct y as [|c2 y]; [reflexivity|].
  destruct (space2 c2 c) eqn:H2; [apply space2_codes in H2; lia|].
  destruct y as [|c3 y]; [reflexivity|].
  destruct (space3 c3 c2 c) eqn:H3; [apply space3_codes in H3; lia|].
  reflexivity.
Qed.

Lemma blank_rev (b : gostring) : blank b = true -> blank (rev b) = true.
Proof.
  unfold blank. intros Hb. apply forallb_forall. intros x Hx.
  rewrite forallb_forall in Hb. apply Hb. apply in_rev. exact Hx.
Qed.

(** A name keeps its bytes when the white space around it is trimmed. *)
Lemma TrimSpace_name (a x b : gostring) :
  blank a = true -> blank b = true -> identifier x = true ->
  TrimSpace (a ++ x ++ b) = x.
Proof.
  intros Ha Hb Hx. unfold TrimSpace, trimRight.
  rewrite (trimLeft_blank _ _ Ha).
  destruct (identifier_cons _ Hx) as (c & x' & -> & Hc & Hx').
  rewrite <- app_comm_cons, (trimLeft_ident _ _ Hc).
  rewrite app_comm_cons, rev_app_distr.
  rewrite (trimLeftRev_blank _ _ (blank_rev _ Hb)).
  destruct (exists_last (l := c :: x') ltac:(discriminate)) as (y & z & Hy).
  rewrite Hy, rev_app_distr.
  change (rev [z] ++ rev y) with (z :: rev y).
  rewrite trimLeftRev_ident.
  - change (z :: rev y) with (rev [z] ++ rev y).
    rewrite <- rev_app_distr. apply rev_involutive.
  - assert (Hall : forallb identByte (c :: x') = true).
    { simpl. rewrite Hc, Hx'. reflexivity. }
    rewrite Hy, forallb_app in Hall. apply andb_true_iff in Hall.
    destruct Hall as [_ Hz]. simpl in Hz. apply andb_true_iff in Hz. tauto.
Qed.

Lemma unquote_name (x : gostring) : identifier x = true -> unquote x = x.
Proof.
  intros Hx. apply unquote_other. intros (q & inner & Hq & ->).
  destruct (identifier_cons _ Hx) as (c & x' & Heq & Hc & _).
  injection Heq as <- _.
  destruct Hq as [-> | [-> | ->]]; discriminate Hc.
Qed.

Lemma columnOf_name (a x b : gostring) :
  blank a = true -> blank b = true -> identifier x = true ->
  columnOf (a ++ x ++ b) = x.
Proof.
  intros Ha Hb Hx. unfold columnOf.
  rewrite (TrimSpace_name _ _ _ Ha Hb Hx). apply unquote_name. exact Hx.
Qed.

Lemma Split_no_sep (x : gostring) (sep : ascii) :
  forallb (fun b => negb (Ascii.eqb b sep)) x = true ->
  Split x sep = [x].
Proof.
  induction x as [|c x IH]; intros Hx; [reflexivity|].
  simpl in Hx. apply andb_true_iff in Hx. destruct Hx as [Hc Hx].
  apply negb_true_iff in Hc. simpl. rewrite Hc, (IH Hx). reflexivity.
Qed.

Lemma Split_at_sep (x y : gostring) (sep : ascii) :
  forallb (fun b => negb (Ascii.eqb b sep)) x = true ->
  Split (x ++ sep :: y) sep = x :: Split y sep.
Proof.
  induction x as [|c x IH]; intros Hx.
  - simpl. rewrite Ascii.eqb_refl. reflexivity.
  - simpl in Hx. apply andb_true_iff in Hx. destruct Hx as [Hc Hx].
    apply negb_true_iff in Hc. simpl. rewrite Hc, (IH Hx). reflexivity.
Qed.

Lemma not_comma (p : ascii -> bool) (x : gostring) :
  (forall b, p b = true -> b <> COMMA) ->
  forallb p x = true ->
  forallb (fun b => negb (Ascii.eqb b COMMA)) x = true.
Proof.
  intros Hp Hx. apply forallb_forall. intros b Hb.
  rewrite forallb_forall in Hx. apply negb_true_iff, Ascii.eqb_neq.
  apply Hp. apply Hx. exact Hb.
Qed.

Lemma space_not_comma (b : ascii) : Regexp.space b = true -> b <> COMMA.
Proof. intros Hb ->. discriminate Hb. Qed.

Lemma identByte_not_comma (b : ascii) : identByte b = true -> b <> COMMA.
Proof. intros Hb ->. discriminate Hb. Qed.

Lemma no_comma_app (x y : gostring) :
  forallb (fun b => negb (Ascii.eqb b COMMA)) x = true ->
  forallb (fun b => negb (Ascii.eqb b COMMA)) y = true ->
  forallb (fun b => negb (Ascii.eqb b COMMA)) (x ++ y) = true.
Proof.
  intros Hx Hy. rewrite forallb_app, Hx, Hy. reflexivity.
Qed.

(** The tokens of a column list give back its names, in order. *)
Lemma columns_of_text (more : list (gostring * gostring * gostring)) :
  forall a col : gostring,
    blank a = true -> identifier col = true ->
    forallb nextColumnOk more = true ->
    filter nonEmpty
           (map columnOf
                (Split (a ++ col ++ concat (map nextColumn more)) COMMA))
    = col :: map (fun x => snd x) more.
Proof.
  induction more as [|[[before after] col'] more IH]; intros a col Ha Hcol Hok.
  - simpl concat. rewrite Split_no_sep.
    + cbn [map filter]. rewrite (columnOf_name a col [] Ha eq_refl Hcol).
      destruct (identifier_cons _ Hcol) as (c0 & x' & -> & _). reflexivity.
    + apply no_comma_app; [apply (not_comma _ _ space_not_comma Ha)|].
      rewrite app_nil_r.
      apply (not_comma _ _ identByte_not_comma (identifier_bytes _ Hcol)).
  - simpl in Hok. apply andb_true_iff in Hok. destruct Hok as [Hx Hmore].
    apply andb_true_iff in Hx. destruct Hx as [Hx Hcol'].
    apply andb_true_iff in Hx. destruct Hx as [Hbefore Hafter].
    destruct (columnName_inv _ Hcol') as [Hid' _].
    cbn [map concat nextColumn].
    replace (a ++ col ++ (before ++ [COMMA] ++ after ++ col')
               ++ concat (map nextColumn more))
      with ((a ++ col ++ before)
              ++ COMMA :: (after ++ col' ++ concat (map nextColumn more)))
      by (rewrite <- !app_assoc; reflexivity).
    rewrite Split_at_sep.
    + cbn [map filter]. rewrite (columnOf_name _ _ _ Ha Hbefore Hcol).
      rewrite (IH after col' Hafter Hid' Hmore).
      destruct (identifier_cons _ Hcol) as (c0 & x' & -> & _). reflexivity.
    + apply no_comma_app; [apply (not_comma _ _ space_not_comma Ha)|].
      apply no_comma_app;
        [apply (not_comma _ _ identByte_not_comma (identifier_bytes _ Hcol))|].
      apply (not_comma _ _ space_not_comma Hbefore).
Qed.

(** [Parse] on a statement that, comments stripped, is canonical. *)
Lemma Parse_canonical_text (stmt : gostring) (c : statement) :
  wellFormed c = true ->
  stripComments stmt = text c ->
  Parse stmt = (c.(table), columns c).
Proof.
  intros Hwf Hstrip.
  destruct (wellFormed_inv c Hwf)
    as (_&_&_&_& Hfirst & Hmore &_&_&_&_&_& Htable &_).
  destruct (columnName_inv _ Hfirst) as [Hid _].
  assert (Hm : Regexp.FindStringSubmatch selectRe (stripComments stmt)
               = [Regexp.between (text c) c.(tail); columnsText c; c.(table)]).
  { unfold Regexp.FindStringSubmatch. rewrite Hstrip, (exec_canonical c Hwf).
    cbn [Regexp.groups]. rewrite !between_app. reflexivity. }
  rewrite (Parse_matched _ _ _ _ Hm). f_equal.
  - pose proof (TrimSpace_name [] c.(table) [] eq_refl eq_refl Htable) as Ht.
    rewrite app_nil_r in Ht. simpl in Ht. rewrite Ht.
    apply TrimSuffix_no_semicolon. apply Forall_forall. intros b Hb.
    pose proof (identifier_bytes _ Htable) as Hbytes.
    rewrite forallb_forall in Hbytes. specialize (Hbytes b Hb).
    intros ->. discriminate Hbytes.
  - unfold columns, columnsText, SplitSeq.
    exact (columns_of_text c.(moreColumns) [] c.(firstColumn) eq_refl Hid Hmore).
Qed.
End TrimFacts.

Section CommentFacts.
Import Strings Regexp Builder Canonical.

Lemma replaceAll_plain (x y : gostring) :
  forallb noSlash x = true ->
  replaceAll reMultiLine [] 0 (x ++ y) = x ++ replaceAll reMultiLine [] 0 y.
Proof.
  induction x as [|c x IH]; intros Hx; [reflexivity|].
  simpl in Hx. apply andb_true_iff in Hx. destruct Hx as [Hc Hx].
  apply negb_true_iff in Hc.
  rewrite <- !app_comm_cons. cbn [replaceAll].
  unfold reMultiLine at 1. rewrite exec_Cls, Hc, (IH Hx). reflexivity.
Qed.

Lemma replaceAll_skip (its : list item) (repl z y : gostring) :
  replaceAll its repl (length z) (z ++ y) = replaceAll its repl 0 y.
Proof.
  induction z as [|c z IH]; [reflexivity|]. simpl. exact IH.
Qed.

Lemma commentByte_inv (c : ascii) :
  commentByte c = true -> byte_is 10 c = false /\ byte_is 47 c = false.
Proof.
  unfold commentByte. intros Hc. apply negb_true_iff in Hc.
  apply orb_false_iff in Hc. exact Hc.
Qed.

(** The block-comment pattern matches a comment written on one line, up to
    its end. *)
Lemma exec_blockComment (body y : gostring) :
  forallb commentByte body = true ->
  exec reMultiLine [] (blockComment body ++ y) = Some ([], y).
Proof.
  intros Hbody. unfold reMultiLine, blockComment.
  rewrite <- !app_assoc. cbn [app].
  rewrite exec_Cls. change (byte_is 47 SLASH) with true. cbv iota.
  rewrite exec_Cls. change (byte_is 42 STAR) with true. cbv iota.
  rewrite exec_Rep_lazy, rep_lazy_skip_class.
  - apply rep_lazy_hit. reflexivity.
  - apply forallb_forall. intros b Hb. rewrite forallb_forall in Hbody.
    destruct (commentByte_inv _ (Hbody b Hb)) as [Hnl _].
    unfold notNL. rewrite Hnl. reflexivity.
  - intros a b Hab Hne.
    pose proof (forallb_suffix _ _ _ _ Hbody Hab) as Hb.
    destruct b as [|c1 b]; [contradiction|].
    simpl in Hb. apply andb_true_iff in Hb. destruct Hb as [_ Hb].
    rewrite <- app_comm_cons, exec_Cls.
    destruct (byte_is 42 c1); [|reflexivity].
    destruct b as [|c2 b]; [reflexivity|].
    simpl in Hb. apply andb_true_iff in Hb. destruct Hb as [Hc2 _].
    destruct (commentByte_inv _ Hc2) as [_ Hslash].
    rewrite <- app_comm_cons, exec_Cls, Hslash. reflexivity.
Qed.

Lemma replaceAll_match (its : list item) (repl : gostring) (c : ascii)
      (z y : gostring) (marks : list gostring) :
  exec its [] (c :: z ++ y) = Some (marks, y) ->
  replaceAll its repl 0 (c :: z ++ y) = repl ++ replaceAll its repl 0 y.
Proof.
  intros Hexec. cbn [replaceAll]. rewrite Hexec.
  replace (length (c :: z ++ y) - length y - 1) with (length z)
    by (cbn [length]; rewrite length_app; lia).
  rewrite replaceAll_skip. reflexivity.
Qed.

Lemma replaceAll_block (body y : gostring) :
  forallb commentByte body = true ->
  replaceAll reMultiLine [] 0 (blockComment body ++ y)
  = replaceAll reMultiLine [] 0 y.
Proof.
  intros Hbody. pose proof (exec_blockComment body y Hbody) as Hexec.
  assert (Hshape : blockComment body ++ y
                   = SLASH :: (STAR :: body ++ [STAR; SLASH]) ++ y).
  { unfold blockComment. simpl. rewrite <- app_assoc. reflexivity. }
  rewrite Hshape in *. exact (replaceAll_match _ [] _ _ _ _ Hexec).
Qed.

Lemma plainByte_inv (c : ascii) :
  plainByte c = true ->
  byte_is 10 c = false /\ byte_is 47 c = false /\ byte_is 45 c = false
  /\ byte_is 39 c = false /\ byte_is 34 c = false /\ byte_is 96 c = false.
Proof.
  unfold plainByte. intros Hc. apply negb_true_iff in Hc.
  repeat (apply orb_false_iff in Hc; destruct Hc as [Hc ?]).
  repeat split; assumption.
Qed.

Lemma plain_noSlash (x : gostring) :
  forallb plainByte x = true -> forallb noSlash x = true.
Proof.
  intros Hx. apply forallb_forall. intros b Hb. rewrite forallb_forall in Hx.
  destruct (plainByte_inv _ (Hx b Hb)) as (_ & Hs & _).
  unfold noSlash. rewrite Hs. reflexivity.
Qed.

Lemma comment_noSlash (x : gostring) :
  forallb commentByte x = true -> forallb noSlash x = true.
Proof.
  intros Hx. apply forallb_forall. intros b Hb. rewrite forallb_forall in Hx.
  destruct (commentByte_inv _ (Hx b Hb)) as (_ & Hs).
  unfold noSlash. rewrite Hs. reflexivity.
Qed.

Lemma trailing_noSlash (l : line) :
  lineOk l = true -> forallb noSlash (trailing l.(lineComment)) = true.
Proof.
  unfold lineOk. intros Hl. apply andb_true_iff in Hl. destruct Hl as [_ Hl].
  destruct l.(lineComment) as [t|]; [|reflexivity].
  simpl. apply comment_noSlash. exact Hl.
Qed.

Lemma replaceAll_pieces (ps : list (gostring * gostring)) (y : gostring) :
  forallb pieceOk ps = true ->
  replaceAll reMultiLine [] 0 (concat (map piece ps) ++ y)
  = concat (map (fun x => fst x) ps) ++ replaceAll reMultiLine [] 0 y.
Proof.
  induction ps as [|[x body] ps IH]; intros Hps; [reflexivity|].
  simpl in Hps. apply andb_true_iff in Hps. destruct Hps as [Hp Hps].
  unfold pieceOk in Hp. simpl in Hp. apply andb_true_iff in Hp.
  destruct Hp as [Hx Hbody].
  cbn [map concat]. unfold piece at 1. cbn [fst snd].
  rewrite <- !app_assoc.
  rewrite (replaceAll_plain _ _ (plain_noSlash _ Hx)).
  rewrite (replaceAll_block _ _ Hbody), (IH Hps). reflexivity.
Qed.

Lemma replaceAll_line (l : line) (y : gostring) :
  lineOk l = true ->
  replaceAll reMultiLine [] 0 (written l ++ y)
  = unblocked l ++ replaceAll reMultiLine [] 0 y.
Proof.
  intros Hl. pose proof (trailing_noSlash l Hl) as Htrail.
  unfold lineOk in Hl. apply andb_true_iff in Hl. destruct Hl as [Hl _].
  apply andb_true_iff in Hl. destruct Hl as [Hps Hend].
  unfold written, unblocked, bare. rewrite <- !app_assoc.
  rewrite (replaceAll_pieces _ _ Hps).
  rewrite (replaceAll_plain _ _ (plain_noSlash _ Hend)).
  rewrite (replaceAll_plain _ _ Htrail). reflexivity.
Qed.

Lemma replaceAll_source (ls : list line) :
  forallb lineOk ls = true ->
  ReplaceAllString reMultiLine (source ls) []
  = Join (map unblocked ls) [NL].
Proof.
  unfold ReplaceAllString, source.
  induction ls as [|l ls IH]; intros Hls; [reflexivity|].
  simpl in Hls. apply andb_true_iff in Hls. destruct Hls as [Hl Hls].
  destruct ls as [|l' ls].
  - cbn [map Join]. rewrite <- (app_nil_r (written l)).
    rewrite (replaceAll_line _ _ Hl). cbn [replaceAll]. apply app_nil_r.
  - specialize (IH Hls).
    change (Join (map written (l :: l' :: ls)) [NL])
      with (written l ++ [NL] ++ Join (map written (l' :: ls)) [NL]).
    change (Join (map unblocked (l :: l' :: ls)) [NL])
      with (unblocked l ++ [NL] ++ Join (map unblocked (l' :: ls)) [NL]).
    rewrite (replaceAll_line _ _ Hl).
    rewrite (replaceAll_plain [NL] _ eq_refl), IH. reflexivity.
Qed.

Lemma Split_Join (lines : list gostring) :
  lines <> [] ->
  Forall (fun x => forallb (fun b => negb (Ascii.eqb b NL)) x = true) lines ->
  Split (Join lines [NL]) NL = lines.
Proof.
  induction lines as [|x lines IH]; intros Hne Hall; [contradiction|].
  inversion Hall as [|? ? Hx Hrest]; subst.
  destruct lines as [|x' lines].
  - simpl. apply Split_no_sep. exact Hx.
  - change (Join (x :: x' :: lines) [NL])
      with (x ++ NL :: Join (x' :: lines) [NL]).
    rewrite (Split_at_sep _ _ _ Hx), IH; [reflexivity | discriminate | exact Hrest].
Qed.

Lemma findComment_step (i : nat) (char nextChar : ascii) (rest : gostring) :
  byte_is 39 char = false -> byte_is 34 char = false ->
  byte_is 96 char = false -> byte_is 45 char = false ->
  findComment i (char :: nextChar :: rest) false false false
  = findComment (S i) (nextChar :: rest) false false false.
Proof.
  intros Hs Hq Hb Hd. cbn [findComment]. rewrite Hs, Hq, Hb, Hd.
  reflexivity.
Qed.

Lemma findComment_plain (x t : gostring) :
  forallb plainByte x = true ->
  forall i, findComment i (x ++ [DASH; DASH] ++ t) false false false
            = Some (i + length x).
Proof.
  induction x as [|c x IH]; intros Hx i.
  - simpl. f_equal. lia.
  - simpl in Hx. apply andb_true_iff in Hx. destruct Hx as [Hc Hx].
    destruct (plainByte_inv _ Hc) as (_ & _ & Hd & Hs & Hq & Hb).
    specialize (IH Hx (S i)).
    rewrite <- app_comm_cons.
    destruct (x ++ [DASH; DASH] ++ t) as [|n rest] eqn:Hrest.
    { destruct x; discriminate Hrest. }
    rewrite (findComment_step _ _ _ _ Hs Hq Hb Hd), IH.
    f_equal. simpl. lia.
Qed.

Lemma findComment_none (x : gostring) :
  forallb plainByte x = true ->
  forall i, findComment i x false false false = None.
Proof.
  induction x as [|c x IH]; intros Hx i; [reflexivity|].
  simpl in Hx. apply andb_true_iff in Hx. destruct Hx as [Hc Hx].
  destruct (plainByte_inv _ Hc) as (_ & _ & Hd & Hs & Hq & Hb).
  specialize (IH Hx (S i)).
  destruct x as [|n rest]; [reflexivity|].
  rewrite (findComment_step _ _ _ _ Hs Hq Hb Hd). exact IH.
Qed.

Lemma stripLine_unblocked (l : line) :
  lineOk l = true -> stripLine (unblocked l) = bare l.
Proof.
  intros Hl. unfold lineOk in Hl.
  apply andb_true_iff in Hl. destruct Hl as [Hl _].
  apply andb_true_iff in Hl. destruct Hl as [Hps Hend].
  assert (Hbare : forallb plainByte (bare l) = true).
  { unfold bare. rewrite forallb_app, Hend, andb_true_r.
    clear Hend. induction l.(pieces) as [|[x body] ps IH]; [reflexivity|].
    simpl in Hps. apply andb_true_iff in Hps. destruct Hps as [Hp Hps].
    unfold pieceOk in Hp. simpl in Hp. apply andb_true_iff in Hp.
    cbn [map concat fst]. rewrite forallb_app, (IH Hps).
    destruct Hp as [-> _]. reflexivity. }
  unfold stripLine, unblocked. destruct l.(lineComment) as [t|].
  - change (trailing (Some t)) with ([DASH; DASH] ++ t).
    rewrite (findComment_plain _ _ Hbare 0). cbn [Nat.add].
    rewrite firstn_app, firstn_all, Nat.sub_diag. cbn [firstn].
    apply app_nil_r.
  - change (trailing None) with (@nil ascii).
    rewrite app_nil_r, (findComment_none _ Hbare 0). reflexivity.
Qed.

Lemma unblocked_no_NL (l : line) :
  lineOk l = true ->
  forallb (fun b => negb (Ascii.eqb b NL)) (unblocked l) = true.
Proof.
  intros Hl. unfold lineOk in Hl.
  apply andb_true_iff in Hl. destruct Hl as [Hl Htrail].
  apply andb_true_iff in Hl. destruct Hl as [Hps Hend].
  assert (Hplain : forall x, forallb plainByte x = true ->
                             forallb (fun b => negb (Ascii.eqb b NL)) x = true).
  { intros x Hx. apply forallb_forall. intros b Hb.
    rewrite forallb_forall in Hx.
    destruct (plainByte_inv _ (Hx b Hb)) as (Hnl & _).
    apply negb_true_iff, Ascii.eqb_neq. intros ->. discriminate Hnl. }
  assert (Hcomment : forall x, forallb commentByte x = true ->
                               forallb (fun b => negb (Ascii.eqb b NL)) x = true).
  { intros x Hx. apply forallb_forall. intros b Hb.
    rewrite forallb_forall in Hx.
    destruct (commentByte_inv _ (Hx b Hb)) as (Hnl & _).
    apply negb_true_iff, Ascii.eqb_neq. intros ->. discriminate Hnl. }
  unfold unblocked, bare. rewrite !forallb_app.
  rewrite (Hplain _ Hend), andb_true_r.
  apply andb_true_iff. split.
  - clear Hend Htrail. induction l.(pieces) as [|[x body] ps IH]; [reflexivity|].
    simpl in Hps. apply andb_true_iff in Hps. destruct Hps as [Hp Hps].
    unfold pieceOk in Hp. simpl in Hp. apply andb_true_iff in Hp.
    cbn [map concat fst]. rewrite forallb_app, (IH Hps).
    destruct Hp as [Hx _]. rewrite (Hplain _ Hx). reflexivity.
  - destruct l.(lineComment) as [t|]; [|reflexivity].
    simpl. apply Hcomment. exact Htrail.
Qed.

(** Comments that stay on their line are stripped, and nothing else is. *)
Lemma stripComments_source (ls : list line) :
  ls <> [] -> forallb lineOk ls = true ->
  stripComments (source ls) = plain ls.
Proof.
  intros Hne Hls. unfold stripComments.
  rewrite (replaceAll_source _ Hls), Split_Join.
  - unfold plain. f_equal. rewrite map_map. apply map_ext_in.
    intros l Hl. apply stripLine_unblocked.
    rewrite forallb_forall in Hls. apply Hls. exact Hl.
  - destruct ls; [contradiction | discriminate].
  - apply Forall_forall. intros x Hx. apply in_map_iff in Hx.
    destruct Hx as (l & <- & Hl). apply unblocked_no_NL.
    rewrite forallb_forall in Hls. apply Hls. exact Hl.
Qed.

(** X17: a canonical statement -- the keywords in any mix of cases, white
    space and line breaks wherever SQL allows them -- with whatever comments
    that stay on their line, parses to its table and its columns in source
    order. *)
Theorem Parse_canonical (ls : list line) (c : statement) :
  ls <> [] -> forallb lineOk ls = true ->
  plain ls = text c -> wellFormed c = true ->
  Parse (source ls) = (c.(table), columns c).
Proof.
  intros Hne Hls Hplain Hwf. apply Parse_canonical_text; [exact Hwf|].
  rewrite (stripComments_source _ Hne Hls). exact Hplain.
Qed.
End CommentFacts.

(** * Concrete runs *)

Section Runs.
Import Db Doubles Samples Strings Regexp Builder.

(** The test of the guarded interceptor: "other" with 1, 2, 3 passes
    through, "expected" is replaced. *)
Lemma C2_witness :
  (str "expected" <> []
   /\ str "other" <> str "expected"
   /\ (Selector.SelectForQuery recordHandle (str "expected") usersById)
        .(QueryContext) tt (str "other") [Int 1; Int 2; Int 3] emptyRecord
      = Return (None, None)
               {| lastQuery := str "other";
                  lastArgs := [Int 1; Int 2; Int 3] |})
  /\ ((str "expected" = [] \/ str "expected" = str "expected")
      /\ ToSql usersById
         = (str "SELECT * FROM users WHERE id = ?", [Int 10], None)
      /\ (Selector.SelectForQuery recordHandle (str "expected") usersById)
           .(QueryContext) tt (str "expected") [] emptyRecord
         = Return (None, None)
                  {| lastQuery := str "SELECT * FROM users WHERE id = ?";
                     lastArgs := [Int 10] |}).
Proof.
  split.
  - split; [discriminate|]. split; [discriminate|].
    destruct (@C2_guard_selects_statement recordDriver recordHandle usersById
                (str "expected") tt (str "other") [Int 1; Int 2; Int 3]
                emptyRecord) as [Hpass _].
    destruct (Hpass ltac:(discriminate) ltac:(discriminate)) as [Hq _].
    rewrite Hq. reflexivity.
  - split; [right; reflexivity|]. split; [reflexivity|].
    destruct (@C2_guard_selects_statement recordDriver recordHandle usersById
                (str "expected") tt (str "expected") [] emptyRecord)
      as [_ Hover].
    destruct (Hover (or_intror eq_refl) _ _ eq_refl) as [Hq _].
    rewrite Hq. reflexivity.
Defined.

Lemma C3_witness :
  ToSql unparsed = ([], [], Some noColumns)
  /\ (str "expected" = [] \/ str "expected" = str "expected")
  /\ (Selector.SelectForQuery logHandle (str "expected") unparsed)
       .(QueryContext) tt (str "expected") [Int 1] []
     = Return (None, Some noColumns) []
  /\ (Selector.SelectForQuery logHandle (str "expected") unparsed)
       .(QueryRowContext) tt (str "expected") [Int 1] []
     = Return None [QueryRow (str "expected") [Int 1]].
Proof.
  split; [reflexivity|]. split; [right; reflexivity|].
  destruct (@C3_render_failure_asymmetry logDriver logHandle unparsed
              (str "expected") tt (str "expected") [Int 1] []
              [] [] noColumns eq_refl (or_intror eq_refl)) as [Hq Hrow].
  split; [exact Hq|]. rewrite Hrow. reflexivity.
Defined.

Lemma C6_witness :
  ToSql usersById = (str "SELECT * FROM users WHERE id = ?", [Int 10], None)
  /\ (Selecter.Select logHandle usersById)
       .(ExecContext) tt (str "DELETE FROM users") [] []
     = Return (Some tt, None)
              [Exec (str "SELECT * FROM users WHERE id = ?") [Int 10]]
  /\ ToSql unparsed = ([], [], Some noColumns)
  /\ (Selecter.Select logHandle unparsed)
       .(ExecContext) tt (str "DELETE FROM users") [] []
     = Panic noColumns [].
Proof.
  destruct (@C6_exec_policy logDriver logHandle usersById tt
              (str "DELETE FROM users") [] []) as [Hover _].
  destruct (@C6_exec_policy logDriver logHandle unparsed tt
              (str "DELETE FROM users") [] []) as (_ & Hfail & _).
  split; [reflexivity|]. split.
  - rewrite (Hover _ _ eq_refl). reflexivity.
  - split; [reflexivity|]. exact (Hfail _ _ _ eq_refl).
Defined.

(** [FindUser] over the empty table. *)
Lemma C8_witness :
  let listed :=
    Tutorial.ListUsers (decodeMany listUsersStmt) tt logHandle
                       (Some (Tutorial.capOne None)) usersState in
  listed = Return ([], None) (state_of listed)
  /\ Tutorial.FindUser 0 (decodeMany listUsersStmt) tt logHandle None
                       usersState
     = Return (0, Some ErrNoRows) (state_of listed).
Proof.
  intros listed. split; [reflexivity|].
  exact (proj1 (@C8_find_without_rows_is_not_found
                  logDriver nat nat 0 0
                  (decodeMany listUsersStmt) (decodeMany listUsersStmt)
                  tt logHandle None usersState (state_of listed))
               eq_refl).
Defined.

Lemma C5_witness :
  exec selectRe [] (stripComments (str "update table set a=1")) = None
  /\ Parse (str "update table set a=1") = ([], []).
Proof.
  split; [reflexivity|].
  apply C5_no_match_yields_nothing. reflexivity.
Defined.

Lemma C7_witness :
  FindStringSubmatch selectRe (stripComments quotedStmt)
  = [str "SELECT `a`, " ++ [DQUOTE] ++ str "b" ++ [DQUOTE]
         ++ str ", 'c' FROM t1";
     str "`a`, " ++ [DQUOTE] ++ str "b" ++ [DQUOTE] ++ str ", 'c'";
     str "t1"]
  /\ snd (Parse quotedStmt) = [str "a"; str "b"; str "c"].
Proof.
  split; [reflexivity|].
  destruct (C7_columns_unquoted_and_nonempty quotedStmt _ _ _ eq_refl)
    as [Hcols _].
  rewrite Hcols. reflexivity.
Defined.

(** A vertical tab is a table token for the pattern and white space for
    [TrimSpace]. *)
Lemma C10_witness :
  Parse vtStmt = ([], [str "a"])
  /\ exists whole region tok,
      FindStringSubmatch selectRe (stripComments vtStmt)
      = [whole; region; tok]
      /\ tok <> [] /\ TrimSpace tok = [].
Proof.
  split; [reflexivity|].
  pose proof (C10_parse_output_shape vtStmt) as Hshape.
  change (Parse vtStmt) with (@nil ascii, [str "a"]) in Hshape.
  destruct Hshape as (_ & _ & Hempty).
  destruct (Hempty eq_refl) as [Hnone|Hsome]; [discriminate | exact Hsome].
Defined.

Lemma C4_witness :
  Parse (str "update table set a=1") = ([], [])
  /\ ToSql unparsed = ([], [], Some noColumns)
  /\ (Selector.Select logHandle unparsed)
       .(QueryContext) tt listUsersStmt [] []
     = Return (None, Some noColumns) [].
Proof.
  split; [reflexivity|].
  destruct (C4_failed_parse_calls (str "update table set a=1")
              [AddWhere (Eq Tutorial.deleted_at Nil); SetLimit 500] eq_refl)
    as [Hsql Hcalls].
  split; [exact Hsql|].
  destruct (Hcalls logDriver logHandle tt listUsersStmt [] [])
    as (Hguard & _).
  destruct (Hguard [] (or_introl eq_refl)) as [[Hstate Herr] _].
  change (Selector.Select logHandle unparsed)
    with (Selector.SelectForQuery logHandle []
            (refine [AddWhere (Eq Tutorial.deleted_at Nil); SetLimit 500]
                    (SelectBuilderFromStmt (str "update table set a=1")))).
  reflexivity.
Defined.

(** The generated [ListUsers] statement, with a block comment added on its
    second line, is canonical and parses as such. *)
Lemma Parse_canonical_listUsers :
  Canonical.source listUsersLines
  = str "-- name: ListUsers :many
SELECT id, /* the key */name, -- comment
email, age, created_at, updated_at FROM users
"
  /\ Parse (Canonical.source listUsersLines)
     = (str "users",
        [str "id"; str "name"; str "email"; str "age"; str "created_at";
         str "updated_at"]).
Proof.
  split; [reflexivity|].
  exact (Parse_canonical listUsersLines listUsersCanonical
           ltac:(discriminate) eq_refl eq_refl eq_refl).
Defined.

(** A query-single-row call on a skeleton that does not render returns
    without an error, and its statement is in the wrapped handle's log. *)
Lemma C4_counterexample :
  Parse (str "update table set a=1") = ([], [])
  /\ (Selector.Select logHandle unparsed)
       .(QueryRowContext) tt listUsersStmt [Int 7] []
     = Return None [QueryRow listUsersStmt [Int 7]]
  /\ ~ failsFast (fun _ : option nat => None) []
         ((Selector.Select logHandle unparsed)
            .(QueryRowContext) tt listUsersStmt [Int 7] []).
Proof.
  split; [reflexivity|]. split; [reflexivity|].
  intros [Hstate _]. discriminate Hstate.
Qed.

(** The token of two backticks is quoted, and what is inside, nothing, is
    not among the columns. *)
Lemma C7_counterexample : ~ every_token_returned.
Proof.
  intros Hall.
  specialize (Hall (str "select ``,a from t") (str "select ``,a from t")
                   (str "``,a") (str "t") (str "``") eq_refl
                   (or_introl eq_refl)).
  vm_compute in Hall. destruct Hall as [Habs|[]]. discriminate Habs.
Qed.

(** An empty table with a column, and a table with a vertical tab in it. *)
Lemma C10_counterexample :
  ~ parse_invariant Regexp.space vtStmt
  /\ ~ parse_invariant Strings.asciiSpace
       (str "select a from a" ++ [VT] ++ str "b").
Proof.
  split; unfold parse_invariant.
  - change (Parse vtStmt) with (@nil ascii, [str "a"]).
    intros (_ & _ & Hcols). discriminate (Hcols eq_refl).
  - change (Parse (str "select a from a" ++ [VT] ++ str "b"))
      with (str "a" ++ [VT] ++ str "b", [str "a"]).
    intros (Htable & _). specialize (Htable ltac:(discriminate)).
    inversion Htable as [|? ? _ Hrest]; subst.
    inversion Hrest as [|? ? [Hvt _] _]; subst. discriminate Hvt.
Qed.
End Runs.

(** * More about comment stripping *)

Section SplitJoinFacts.
Import Strings.

Lemma Split_nonempty (s : gostring) (sep : ascii) : Split s sep <> [].
Proof.
  destruct s as [|c s]; simpl; [discriminate|].
  destruct (Ascii.eqb c sep); [discriminate|].
  destruct (Split s sep); discriminate.
Qed.

(** Joining what was split gives the text back. *)
Lemma Join_Split (s : gostring) (sep : ascii) :
  Join (Split s sep) [sep] = s.
Proof.
  induction s as [|c s IH]; [reflexivity|].
  simpl. destruct (Ascii.eqb c sep) eqn:Hc.
  - apply Ascii.eqb_eq in Hc. subst c.
    pose proof (Split_nonempty s sep) as Hne.
    destruct (Split s sep) as [|piece pieces]; [contradiction|].
    change (Join ([] :: piece :: pieces) [sep])
      with (sep :: Join (piece :: pieces) [sep]).
    rewrite IH. reflexivity.
  - pose proof (Split_nonempty s sep) as Hne.
    destruct (Split s sep) as [|piece pieces]; [contradiction|].
    destruct pieces as [|piece' pieces].
    + simpl in IH. simpl. rewrite IH. reflexivity.
    + change (Join ((c :: piece) :: piece' :: pieces) [sep])
        with (c :: Join (piece :: piece' :: pieces) [sep]).
      rewrite IH. reflexivity.
Qed.

(** No piece holds the separator, and every byte of a piece is a byte of
    the text. *)
Lemma Split_pieces (s : gostring) (sep : ascii) :
  Forall (fun piece =>
            forallb (fun b => negb (Ascii.eqb b sep)) piece = true
            /\ forall b, In b piece -> In b s)
         (Split s sep).
Proof.
  induction s as [|c s IH]; simpl.
  - constructor; [|constructor]. split; [reflexivity | intros b []].
  - assert (Hlift : Forall (fun piece =>
                       forallb (fun b => negb (Ascii.eqb b sep)) piece = true
                       /\ forall b, In b piece -> In b (c :: s))
                           (Split s sep)).
    { eapply Forall_impl; [|exact IH]. intros piece [Hsep Hin].
      split; [exact Hsep|]. intros b Hb. right. auto. }
    destruct (Ascii.eqb c sep) eqn:Hc.
    + constructor; [|exact Hlift]. split; [reflexivity | intros b []].
    + destruct (Split s sep) as [|piece pieces]; constructor.
      * split; [simpl; rewrite Hc; reflexivity|].
        intros b [<-|[]]. left. reflexivity.
      * constructor.
      * inversion Hlift as [|? ? [Hsep Hin] Hrest]; subst.
        split; [simpl; rewrite Hc; exact Hsep|].
        intros b [<-|Hb]; [left; reflexivity | apply Hin; exact Hb].
      * inversion Hlift; assumption.
Qed.

Lemma countNL_app (x y : gostring) : countNL (x ++ y) = countNL x + countNL y.
Proof. apply count_occ_app. Qed.

Lemma countNL_free (x : gostring) :
  forallb (fun b => negb (Ascii.eqb b NL)) x = true -> countNL x = 0.
Proof.
  intros Hx. apply count_occ_not_In. intros Hin.
  rewrite forallb_forall in Hx. specialize (Hx NL Hin).
  rewrite Ascii.eqb_refl in Hx. discriminate.
Qed.

(** Lines without line feed, joined: one line feed between two lines. *)
Lemma countNL_Join (lines : list gostring) :
  Forall (fun x => forallb (fun b => negb (Ascii.eqb b NL)) x = true) lines ->
  countNL (Join lines [NL]) = length lines - 1.
Proof.
  induction lines as [|x lines IH]; intros Hall; [reflexivity|].
  inversion Hall as [|? ? Hx Hrest]; subst.
  destruct lines as [|x' lines].
  - simpl. apply countNL_free. exact Hx.
  - change (Join (x :: x' :: lines) [NL])
      with (x ++ [NL] ++ Join (x' :: lines) [NL]).
    rewrite !countNL_app, (countNL_free _ Hx), (IH Hrest).
    simpl. lia.
Qed.
End SplitJoinFacts.

Section StripFacts.
Import Strings Regexp Builder Canonical.

Lemma findComment_eq (i : nat) (char nextChar : ascii) (rest : gostring)
      (inS inD inB : bool) :
  findComment i (char :: nextChar :: rest) inS inD inB
  = if byte_is 39 char && negb inD && negb inB then
      findComment (S i) (nextChar :: rest) (negb inS) inD inB
    else if byte_is 34 char && negb inS && negb inB then
      findComment (S i) (nextChar :: rest) inS (negb inD) inB
    else if byte_is 96 char && negb inS && negb inD then
      findComment (S i) (nextChar :: rest) inS inD (negb inB)
    else if byte_is 45 char && byte_is 45 nextChar
            && negb inS && negb inD && negb inB then
      Some i
    else findComment (S i) (nextChar :: rest) inS inD inB.
Proof. reflexivity. Qed.

Lemma findComment_no_dash (line : gostring) :
  forallb noDash line = true ->
  forall i inS inD inB, findComment i line inS inD inB = None.
Proof.
  induction line as [|c line IH]; intros Hline i inS inD inB; [reflexivity|].
  simpl in Hline. apply andb_true_iff in Hline. destruct Hline as [Hc Hline].
  apply negb_true_iff in Hc.
  destruct line as [|n rest]; [reflexivity|].
  rewrite findComment_eq, Hc. cbn [andb].
  repeat match goal with
         | |- context [if ?b then _ else _] => destruct b
         end; apply IH; exact Hline.
Qed.

Lemma stripLine_no_dash (line : gostring) :
  forallb noDash line = true -> stripLine line = line.
Proof.
  intros Hline. unfold stripLine.
  rewrite (findComment_no_dash _ Hline). reflexivity.
Qed.

Lemma stripLine_keeps (p : ascii -> bool) (line : gostring) :
  forallb p line = true -> forallb p (stripLine line) = true.
Proof.
  intros Hline. unfold stripLine.
  destruct (findComment 0 line false false false) as [n|]; [|exact Hline].
  rewrite <- (firstn_skipn n line), forallb_app in Hline.
  apply andb_true_iff in Hline. tauto.
Qed.

(** A match of the block-comment pattern is a comment opener, text without
    line feed, a comment closer. *)
Lemma exec_reMultiLine_inv (s : gostring) (marks : list gostring)
      (rest : gostring) :
  exec reMultiLine [] s = Some (marks, rest) ->
  exists body,
    s = SLASH :: STAR :: body ++ STAR :: SLASH :: rest
    /\ forallb notNL body = true.
Proof.
  unfold reMultiLine. intros Hrun.
  destruct s as [|c1 s]; [discriminate|]. rewrite exec_Cls in Hrun.
  destruct (byte_is 47 c1) eqn:H1; [|discriminate].
  destruct s as [|c2 s]; [discriminate|]. rewrite exec_Cls in Hrun.
  destruct (byte_is 42 c2) eqn:H2; [|discriminate].
  rewrite exec_Rep_lazy in Hrun. apply rep_lazy_inv in Hrun.
  destruct Hrun as (body & s3 & -> & Hbody & Hrun).
  destruct s3 as [|c3 s3]; [discriminate|]. rewrite exec_Cls in Hrun.
  destruct (byte_is 42 c3) eqn:H3; [|discriminate].
  destruct s3 as [|c4 s3]; [discriminate|]. rewrite exec_Cls in Hrun.
  destruct (byte_is 47 c4) eqn:H4; [|discriminate].
  injection Hrun as _ <-.
  apply byte_is_eq in H1; [|lia]. apply byte_is_eq in H2; [|lia].
  apply byte_is_eq in H3; [|lia]. apply byte_is_eq in H4; [|lia].
  subst. exists body. split; [reflexivity | exact Hbody].
Qed.

Lemma notNL_neq (c : ascii) : notNL c = true -> c <> NL.
Proof. intros Hc ->. discriminate Hc. Qed.

Lemma countNL_cons_other (c : ascii) (s : gostring) :
  c <> NL -> countNL (c :: s) = countNL s.
Proof. intros Hc. apply count_occ_cons_neq. exact Hc. Qed.

(** Taking block comments out takes no line feed out. *)
Lemma countNL_replaceAll (s : gostring) :
  forall skip,
    forallb notNL (firstn skip s) = true ->
    countNL (replaceAll reMultiLine [] skip s) = countNL s.
Proof.
  induction s as [|c s IH]; intros skip Hskip; [reflexivity|].
  destruct skip as [|n].
  - cbn [replaceAll].
    destruct (exec reMultiLine [] (c :: s)) as [[marks rest]|] eqn:Hrun.
    + destruct (exec_reMultiLine_inv _ _ _ Hrun) as (body & Hs & Hbody).
      injection Hs as -> ->. cbn [app].
      rewrite (countNL_cons_other SLASH) by discriminate.
      apply IH.
      assert (Hz : STAR :: body ++ STAR :: SLASH :: rest
                   = (STAR :: body ++ [STAR; SLASH]) ++ rest).
      { simpl. rewrite <- app_assoc. reflexivity. }
      rewrite Hz.
      replace (length (SLASH :: (STAR :: body ++ [STAR; SLASH]) ++ rest)
               - length rest - 1)
        with (length (STAR :: body ++ [STAR; SLASH]))
        by (cbn [length]; rewrite ?length_app; cbn [length];
            rewrite ?length_app; cbn [length]; lia).
      rewrite firstn_app, firstn_all, Nat.sub_diag.
      cbn [firstn]. rewrite app_nil_r. simpl. rewrite forallb_app, Hbody.
      reflexivity.
    + destruct (ascii_dec c NL) as [->|Hc].
      * unfold countNL. rewrite !count_occ_cons_eq by reflexivity.
        f_equal. apply (IH 0). reflexivity.
      * rewrite !countNL_cons_other by exact Hc. apply (IH 0). reflexivity.
  - cbn [replaceAll]. simpl in Hskip. apply andb_true_iff in Hskip.
    destruct Hskip as [Hc Hskip].
    rewrite (countNL_cons_other _ _ (notNL_neq _ Hc)). apply IH. exact Hskip.
Qed.

Lemma slash_dash_free (stmt : gostring) :
  forallb (fun b => negb (byte_is 47 b || byte_is 45 b)) stmt = true ->
  forallb noSlash stmt = true /\ forallb noDash stmt = true.
Proof.
  intros Hs. split; apply forallb_forall; intros b Hb;
    rewrite forallb_forall in Hs; specialize (Hs b Hb);
    apply negb_true_iff, orb_false_iff in Hs; destruct Hs as [H1 H2].
  - unfold noSlash. rewrite H1. reflexivity.
  - unfold noDash. rewrite H2. reflexivity.
Qed.

Lemma stripComments_identity :
  forall stmt : gostring,
    forallb (fun b => negb (byte_is 47 b || byte_is 45 b)) stmt = true ->
    stripComments stmt = stmt.
Proof.
  intros stmt Hs. destruct (slash_dash_free _ Hs) as [Hslash Hdash].
  unfold stripComments, ReplaceAllString.
  pose proof (replaceAll_plain stmt [] Hslash) as Hrep.
  rewrite app_nil_r in Hrep. cbn [replaceAll] in Hrep.
  rewrite app_nil_r in Hrep. rewrite Hrep.
  replace (map stripLine (Split stmt NL)) with (Split stmt NL).
  - apply Join_Split.
  - symmetry. rewrite <- (map_id (Split stmt NL)) at 2.
    apply map_ext_in. intros piece Hpiece.
    pose proof (Split_pieces stmt NL) as Hall.
    rewrite Forall_forall in Hall. destruct (Hall _ Hpiece) as [_ Hin].
    apply stripLine_no_dash. apply forallb_forall. intros b Hb.
    rewrite forallb_forall in Hdash. apply Hdash. auto.
Qed.

(** X1: a statement that holds neither a slash nor a dash comes out of
    [stripComments] byte for byte as it went in, whatever its quotes, white
    space and line breaks. *)
Theorem stripComments_without_markers :
  forall stmt : gostring,
    forallb (fun b => negb (byte_is 47 b || byte_is 45 b)) stmt = true ->
    stripComments stmt = stmt.
Proof.
  exact stripComments_identity.
Qed.

(** X2: [stripComments] removes text within lines only: its result has as
    many line feeds as the statement it was given. *)
Theorem stripComments_keeps_line_feeds :
  forall stmt : gostring,
    countNL (stripComments stmt) = countNL stmt.
Proof.
  intros stmt. unfold stripComments, ReplaceAllString.
  set (stmt' := replaceAll reMultiLine [] 0 stmt).
  assert (Hrep : countNL stmt' = countNL stmt).
  { apply countNL_replaceAll. reflexivity. }
  rewrite <- Hrep.
  pose proof (Split_pieces stmt' NL) as Hpieces.
  assert (Hfree : Forall (fun x => forallb (fun b => negb (Ascii.eqb b NL)) x
                                   = true) (Split stmt' NL)).
  { eapply Forall_impl; [|exact Hpieces]. simpl. tauto. }
  rewrite countNL_Join.
  - rewrite length_map. rewrite <- (Join_Split stmt' NL) at 2.
    symmetry. apply countNL_Join. exact Hfree.
  - apply Forall_forall. intros x Hx. apply in_map_iff in Hx.
    destruct Hx as (line & <- & Hline). apply stripLine_keeps.
    rewrite Forall_forall in Hfree. auto.
Qed.
End StripFacts.

Section QuoteFacts.
Import Strings Regexp Builder Canonical.

Lemma findComment_plain_skip (x r : gostring) :
  forallb plainByte x = true -> r <> [] ->
  forall i, findComment i (x ++ r) false false false
            = findComment (i + length x) r false false false.
Proof.
  intros Hx Hr. induction x as [|c x IH]; intros i.
  - simpl. rewrite Nat.add_0_r. reflexivity.
  - simpl in Hx. apply andb_true_iff in Hx. destruct Hx as [Hc Hx].
    destruct (plainByte_inv _ Hc) as (_ & _ & Hd & Hs & Hq & Hb).
    specialize (IH Hx (S i)). rewrite <- app_comm_cons.
    destruct (x ++ r) as [|n rest] eqn:Hrest.
    { destruct x; [contradiction | discriminate Hrest]. }
    rewrite (findComment_step _ _ _ _ Hs Hq Hb Hd), IH.
    f_equal. simpl. lia.
Qed.

Lemma findComment_inside (inS inD inB : bool) (body r : gostring) :
  inS || inD || inB = true ->
  forallb (inert inS inD inB) body = true -> r <> [] ->
  forall i, findComment i (body ++ r) inS inD inB
            = findComment (i + length body) r inS inD inB.
Proof.
  intros Hin Hbody Hr. induction body as [|c body IH]; intros i.
  - simpl. rewrite Nat.add_0_r. reflexivity.
  - simpl in Hbody. apply andb_true_iff in Hbody. destruct Hbody as [Hc Hbody].
    specialize (IH Hbody (S i)). rewrite <- app_comm_cons.
    destruct (body ++ r) as [|n rest] eqn:Hrest.
    { destruct body; [contradiction | discriminate Hrest]. }
    rewrite findComment_eq.
    unfold inert in Hc. apply andb_true_iff in Hc. destruct Hc as [Hc H3].
    apply andb_true_iff in Hc. destruct Hc as [H1 H2].
    apply negb_true_iff in H1. apply negb_true_iff in H2.
    apply negb_true_iff in H3. rewrite H1, H2, H3.
    assert (H4 : byte_is 45 c && byte_is 45 n && negb inS && negb inD
                 && negb inB = false).
    { destruct inS, inD, inB; try discriminate Hin;
        rewrite ?andb_false_r; reflexivity. }
    rewrite H4, IH. f_equal. simpl. lia.
Qed.

Lemma findComment_open (q n : ascii) (r : gostring) (i : nat) :
  isQuote q ->
  findComment i (q :: n :: r) false false false
  = let '(inS, inD, inB) := quoteState q in
    findComment (S i) (n :: r) inS inD inB.
Proof.
  intros [-> | [-> | ->]]; reflexivity.
Qed.

Lemma findComment_close (q n : ascii) (r : gostring) (i : nat) :
  isQuote q ->
  (let '(inS, inD, inB) := quoteState q in
   findComment i (q :: n :: r) inS inD inB)
  = findComment (S i) (n :: r) false false false.
Proof.
  intros [-> | [-> | ->]]; reflexivity.
Qed.

Lemma byte_is_other (n : nat) (c : ascii) :
  n < 256 -> c <> chr n -> byte_is n c = false.
Proof.
  intros Hn Hc. destruct (byte_is n c) eqn:Hb; [|reflexivity].
  apply byte_is_eq in Hb; [contradiction | exact Hn].
Qed.

Lemma quoted_inert (q : ascii) (body : gostring) :
  isQuote q -> forallb (quotedByte q) body = true ->
  let '(inS, inD, inB) := quoteState q in
  inS || inD || inB = true /\ forallb (inert inS inD inB) body = true.
Proof.
  intros Hq Hbody.
  assert (Hne : forall b, In b body -> b <> q).
  { intros b Hb. rewrite forallb_forall in Hbody. specialize (Hbody b Hb).
    unfold quotedByte in Hbody. apply andb_true_iff in Hbody.
    destruct Hbody as [Hbq _]. apply negb_true_iff in Hbq.
    apply Ascii.eqb_neq. exact Hbq. }
  destruct Hq as [-> | [-> | ->]]; simpl; (split; [reflexivity|]);
    apply forallb_forall; intros b Hb; specialize (Hne b Hb); unfold inert.
  - rewrite (byte_is_other 96 b) by (lia || exact Hne).
    rewrite ?andb_false_r. reflexivity.
  - rewrite (byte_is_other 34 b) by (lia || exact Hne).
    rewrite ?andb_false_r. reflexivity.
  - rewrite (byte_is_other 39 b) by (lia || exact Hne).
    rewrite ?andb_false_r. reflexivity.
Qed.

Lemma firstn_exact {A} (a b : list A) (n : nat) :
  n = length a -> firstn n (a ++ b) = a.
Proof.
  intros ->. rewrite firstn_app, firstn_all, Nat.sub_diag. simpl.
  apply app_nil_r.
Qed.

(** The scan of a line with one quoted stretch: what is between the quotes
    is passed over, a comment after them is found. *)
Lemma stripLine_quoted (x body z : gostring) (q : ascii)
      (comment : option gostring) :
  isQuote q ->
  forallb plainByte x = true -> forallb plainByte z = true ->
  forallb (quotedByte q) body = true ->
  stripLine (x ++ q :: body ++ q :: z ++ trailing comment)
  = x ++ q :: body ++ q :: z.
Proof.
  intros Hq Hx Hz Hbody. unfold stripLine.
  rewrite (findComment_plain_skip x _ Hx) by discriminate.
  pose proof (quoted_inert q body Hq Hbody) as Hin.
  destruct (body ++ q :: z ++ trailing comment) as [|n0 r0] eqn:Hr0.
  { destruct body; discriminate Hr0. }
  rewrite (findComment_open q n0 r0 _ Hq), <- Hr0.
  pose proof (findComment_close q) as Hclose.
  destruct (quoteState q) as [[inS inD] inB]. destruct Hin as [Hflag Hinert].
  rewrite (findComment_inside inS inD inB body _ Hflag Hinert)
    by discriminate.
  destruct (z ++ trailing comment) as [|n1 r1] eqn:Hr1.
  - (* the closing quote ends the line *)
    destruct z; [|discriminate Hr1]. destruct comment; [discriminate Hr1|].
    reflexivity.
  - rewrite (Hclose n1 r1 _ Hq), <- Hr1.
    destruct comment as [t|].
    + change (trailing (Some t)) with ([DASH; DASH] ++ t).
      rewrite (findComment_plain z t Hz).
      replace (x ++ q :: body ++ q :: z ++ [DASH; DASH] ++ t)
        with ((x ++ q :: body ++ q :: z) ++ [DASH; DASH] ++ t).
      * apply firstn_exact. rewrite !length_app. cbn [length Nat.add].
        rewrite !length_app. cbn [length]. lia.
      * rewrite <- !app_assoc. cbn [app]. rewrite <- !app_assoc.
        reflexivity.
    + change (trailing None) with (@nil ascii). rewrite app_nil_r.
      rewrite (findComment_none z Hz). reflexivity.
Qed.

(** X3: on a line, a [--] between a pair of quote bytes (backticks, double
    or single quotes) is not taken for a comment: the quoted text stays,
    and only a comment after the closing quote is cut. *)
Theorem stripComments_keeps_quoted_dashes :
  forall (x body z : gostring) (q : ascii) (comment : option gostring),
    isQuote q ->
    forallb plainByte x = true -> forallb plainByte z = true ->
    forallb (quotedByte q) body = true ->
    match comment with
    | Some t => forallb commentByte t = true
    | None => True
    end ->
    stripComments (x ++ q :: body ++ q :: z ++ trailing comment)
    = x ++ q :: body ++ q :: z.
Proof.
  intros x body z q comment Hq Hx Hz Hbody Hcomment.
  set (line := x ++ q :: body ++ q :: z ++ trailing comment).
  assert (Hbytes : forallb commentByte line = true).
  { assert (Hplain : forall y, forallb plainByte y = true ->
                               forallb commentByte y = true).
    { intros y Hy. apply forallb_forall. intros b Hb.
      rewrite forallb_forall in Hy.
      destruct (plainByte_inv _ (Hy b Hb)) as (Hnl & Hs & _).
      unfold commentByte. rewrite Hnl, Hs. reflexivity. }
    assert (Hquote : commentByte q = true).
    { destruct Hq as [-> | [-> | ->]]; reflexivity. }
    assert (Hb' : forallb commentByte body = true).
    { apply forallb_forall. intros b Hb. rewrite forallb_forall in Hbody.
      specialize (Hbody b Hb). unfold quotedByte in Hbody.
      apply andb_true_iff in Hbody. tauto. }
    assert (Ht : forallb commentByte (trailing comment) = true).
    { destruct comment as [t|]; [|reflexivity]. simpl. exact Hcomment. }
    unfold line. rewrite forallb_app, (Hplain _ Hx). cbn [forallb andb].
    rewrite Hquote, forallb_app, Hb'. cbn [forallb andb].
    rewrite Hquote, forallb_app, (Hplain _ Hz), Ht. reflexivity. }
  unfold stripComments, ReplaceAllString.
  pose proof (replaceAll_plain line [] (comment_noSlash _ Hbytes)) as Hrep.
  rewrite app_nil_r in Hrep. cbn [replaceAll] in Hrep.
  rewrite app_nil_r in Hrep. rewrite Hrep.
  rewrite Split_no_sep.
  - cbn [map Join]. apply stripLine_quoted; assumption.
  - apply forallb_forall. intros b Hb. rewrite forallb_forall in Hbytes.
    destruct (commentByte_inv _ (Hbytes b Hb)) as (Hnl & _).
    apply negb_true_iff, Ascii.eqb_neq. intros ->. discriminate Hnl.
Qed.
End QuoteFacts.

(** * More about the parser *)

Section ParseMore.
Import Strings Regexp Builder Canonical.

Lemma unquote_Forall (P : ascii -> Prop) (t : gostring) :
  Forall P t -> Forall P (unquote t).
Proof.
  intros Ht. unfold unquote.
  destruct (2 <=? length t); [|exact Ht].
  destruct (_ || _); [|exact Ht].
  unfold slice.
  rewrite <- (firstn_skipn 1 t) in Ht. apply Forall_app in Ht.
  destruct Ht as [_ Ht].
  rewrite <- (firstn_skipn (length t - 1 - 1) (skipn 1 t)) in Ht.
  apply Forall_app in Ht. tauto.
Qed.

(** X4: no column [Parse] returns holds a comma: the column region is split
    at every comma, also at one between quotes. *)
Theorem Parse_columns_hold_no_comma :
  forall stmt : gostring,
    Forall (fun col => ~ In COMMA col) (snd (Parse stmt)).
Proof.
  intros stmt.
  destruct (exec selectRe [] (stripComments stmt)) as [[marks rest]|] eqn:Hrun.
  - destruct (selectRe_captures _ _ _ Hrun)
      as (whole & region & c & tok & Hm & _).
    rewrite (Parse_matched _ _ _ _ Hm). simpl snd.
    apply Forall_forall. intros col Hcol.
    apply filter_In in Hcol. destruct Hcol as [Hcol _].
    apply in_map_iff in Hcol. destruct Hcol as (piece & <- & Hpiece).
    pose proof (Split_pieces region COMMA) as Hall.
    rewrite Forall_forall in Hall. destruct (Hall _ Hpiece) as [Hsep _].
    assert (Hbytes : Forall (fun b => b <> COMMA) piece).
    { apply Forall_forall. intros b Hb. rewrite forallb_forall in Hsep.
      apply Ascii.eqb_neq, negb_true_iff. auto. }
    unfold columnOf.
    pose proof (unquote_Forall _ _ (TrimSpace_Forall _ _ Hbytes)) as Hcol.
    rewrite Forall_forall in Hcol. intros Hin. exact (Hcol _ Hin eq_refl).
  - rewrite (Parse_unmatched _ Hrun). constructor.
Qed.

Lemma fold_s_fail (c : ascii) (rest : list item) (marks : list gostring)
      (x : gostring) :
  fold 115 c = false -> byte_is 197 c = false ->
  exec (fold_s :: rest) marks (c :: x) = None.
Proof.
  intros Hs Hlong. unfold fold_s. cbn [exec alt strip_prefix].
  destruct (Ascii.eqb (chr 115) c) eqn:E1.
  { apply Ascii.eqb_eq in E1. subst c. discriminate Hs. }
  destruct (Ascii.eqb (chr 83) c) eqn:E2.
  { apply Ascii.eqb_eq in E2. subst c. discriminate Hs. }
  destruct (Ascii.eqb (chr 197) c) eqn:E3.
  { apply Ascii.eqb_eq in E3. subst c. discriminate Hlong. }
  reflexivity.
Qed.

(** X5: a statement whose text, comments stripped, is only white space, or
    goes on after its leading white space with a byte other than an [s] (in
    either case, or the first byte of U+017F), matches nothing: the pattern
    is anchored at the start, so a statement with anything before [select]
    yields no metadata. *)
Theorem Parse_needs_leading_select :
  forall stmt ws rest : gostring,
    stripComments stmt = ws ++ rest ->
    blank ws = true ->
    match rest with
    | [] => True
    | c :: _ => space c = false /\ fold 115 c = false /\ byte_is 197 c = false
    end ->
    Parse stmt = ([], []).
Proof.
  intros stmt ws rest Hstrip Hws Hrest. apply Parse_unmatched.
  rewrite Hstrip, selectRe_stretches, exec_Rep_greedy.
  apply rep_greedy_none.
  - exact Hws.
  - intros c x Hc. apply fold_s_fail.
    + apply fold_not_stop; [lia | left; exact Hc].
    + apply space_codes in Hc. unfold byte_is.
      apply Nat.eqb_neq. lia.
  - destruct rest as [|c rest]; [exact I | tauto].
  - destruct rest as [|c rest]; [reflexivity|].
    destruct Hrest as (_ & Hs & Hlong). apply fold_s_fail; assumption.
Qed.

(** X6: comments that each stay on their line -- block comments with
    neither line feed nor slash inside, a line comment at the end of a
    line -- are stripped from text that holds no quote, dash or slash of its
    own, and nothing else is. *)
Theorem stripComments_removes_one_line_comments :
  forall ls : list line,
    ls <> [] -> forallb lineOk ls = true ->
    stripComments (source ls) = plain ls.
Proof.
  exact stripComments_source.
Qed.
End ParseMore.

(** * More about the interceptors *)

Section InterceptorMore.
Context `{Driver}.
Import Db.

Lemma selector_pass (raw : DBTX) (sb : SelectBuilder) (guard : gostring)
      (ctx : Ctx) (query : gostring) (args : list value) (w : World) :
  guard <> [] -> query <> guard ->
  (Selector.SelectForQuery raw guard sb).(QueryContext) ctx query args w
  = raw.(QueryContext) ctx query args w
  /\ (Selector.SelectForQuery raw guard sb).(QueryRowContext) ctx query args w
     = raw.(QueryRowContext) ctx query args w.
Proof.
  intros Hg Hq. simpl.
  unfold Selector.QueryContext, Selector.QueryRowContext.
  rewrite passes_true by assumption. split; reflexivity.
Qed.

Lemma selector_over (raw : DBTX) (sb : SelectBuilder) (guard : gostring)
      (ctx : Ctx) (query : gostring) (args : list value) (w : World)
      (rendered : gostring) (renderedArgs : list value) :
  guard = [] \/ query = guard ->
  ToSql sb = (rendered, renderedArgs, None) ->
  (Selector.SelectForQuery raw guard sb).(QueryContext) ctx query args w
  = raw.(QueryContext) ctx rendered renderedArgs w
  /\ (Selector.SelectForQuery raw guard sb).(QueryRowContext) ctx query args w
     = raw.(QueryRowContext) ctx rendered renderedArgs w.
Proof.
  intros Hor Hsql. simpl.
  unfold Selector.QueryContext, Selector.QueryRowContext.
  rewrite passes_false by assumption. simpl. rewrite Hsql.
  split; reflexivity.
Qed.

Variable raw : DBTX.

(** X7: a prepare call is never given the skeleton's arguments: the guarded
    interceptor prepares the caller's statement, whatever its guard and its
    skeleton; the unconditional one prepares the statement text the skeleton
    renders to, and panics with the rendering error, the wrapped handle
    untouched, when there is none. *)
Theorem prepare_policy :
  forall (sb : SelectBuilder) (ctx : Ctx) (query : gostring) (w : World),
    (forall guard,
        (Selector.SelectForQuery raw guard sb).(PrepareContext) ctx query w
        = raw.(PrepareContext) ctx query w)
    /\ (forall rendered renderedArgs,
           ToSql sb = (rendered, renderedArgs, None) ->
           (Selecter.Select raw sb).(PrepareContext) ctx query w
           = raw.(PrepareContext) ctx rendered w)
    /\ (forall q0 a0 e,
           ToSql sb = (q0, a0, Some e) ->
           (Selecter.Select raw sb).(PrepareContext) ctx query w = Panic e w).
Proof.
  intros sb ctx query w. split; [reflexivity|].
  split; intros; simpl; unfold Selecter.PrepareContext, bind, MustSql;
    cbn [Selecter.sb Selecter.raw];
    match goal with Hsql : ToSql sb = _ |- _ => rewrite Hsql end;
    reflexivity.
Qed.

(** X8: the unconditional interceptor answers every query and
    query-single-row call, whatever statement and arguments the caller
    gives, by the wrapped handle's call on the statement and the arguments
    the skeleton renders to; when the skeleton does not render, both calls
    panic with the rendering error and the wrapped handle is not reached. *)
Theorem selecter_query_policy :
  forall (sb : SelectBuilder) (ctx : Ctx) (query : gostring)
         (args : list value) (w : World),
    (forall rendered renderedArgs,
        ToSql sb = (rendered, renderedArgs, None) ->
        (Selecter.Select raw sb).(QueryContext) ctx query args w
        = raw.(QueryContext) ctx rendered renderedArgs w
        /\ (Selecter.Select raw sb).(QueryRowContext) ctx query args w
           = raw.(QueryRowContext) ctx rendered renderedArgs w)
    /\ (forall q0 a0 e,
           ToSql sb = (q0, a0, Some e) ->
           (Selecter.Select raw sb).(QueryContext) ctx query args w = Panic e w
           /\ (Selecter.Select raw sb).(QueryRowContext) ctx query args w
              = Panic e w).
Proof.
  intros sb ctx query args w.
  split; intros; simpl;
    unfold Selecter.QueryContext, Selecter.QueryRowContext, bind, MustSql;
    cbn [Selecter.sb Selecter.raw];
    match goal with Hsql : ToSql sb = _ |- _ => rewrite Hsql end;
    split; reflexivity.
Qed.

(** X9: two guarded interceptors stacked on one handle serve two statements:
    with distinct non-empty guards and skeletons that render, a query (or
    query-single-row) call with the inner guard runs the inner skeleton's
    statement, a call with the outer guard runs the outer skeleton's
    statement -- as long as that rendered text is not itself the inner
    guard -- and a call with any other statement reaches the handle
    unchanged. *)
Theorem stacked_guards_serve_both :
  forall (g1 g2 : gostring) (sb1 sb2 : SelectBuilder)
         (r1 r2 : gostring) (a1 a2 : list value)
         (ctx : Ctx) (args : list value) (w : World),
    g1 <> [] -> g2 <> [] -> g1 <> g2 ->
    ToSql sb1 = (r1, a1, None) -> ToSql sb2 = (r2, a2, None) ->
    r2 <> g1 ->
    let h := Selector.SelectForQuery
               (Selector.SelectForQuery raw g1 sb1) g2 sb2 in
    (h.(QueryContext) ctx g1 args w = raw.(QueryContext) ctx r1 a1 w
     /\ h.(QueryRowContext) ctx g1 args w = raw.(QueryRowContext) ctx r1 a1 w)
    /\ (h.(QueryContext) ctx g2 args w = raw.(QueryContext) ctx r2 a2 w
        /\ h.(QueryRowContext) ctx g2 args w
           = raw.(QueryRowContext) ctx r2 a2 w)
    /\ (forall query,
           query <> g1 -> query <> g2 ->
           h.(QueryContext) ctx query args w
           = raw.(QueryContext) ctx query args w
           /\ h.(QueryRowContext) ctx query args w
              = raw.(QueryRowContext) ctx query args w).
Proof.
  intros g1 g2 sb1 sb2 r1 r2 a1 a2 ctx args w Hg1 Hg2 Hne Hsql1 Hsql2 Hr2 h.
  subst h. set (inner := Selector.SelectForQuery raw g1 sb1).
  split; [|split].
  - destruct (selector_pass inner sb2 g2 ctx g1 args w Hg2 Hne) as [-> ->].
    exact (selector_over raw sb1 g1 ctx g1 args w r1 a1
             (or_intror eq_refl) Hsql1).
  - destruct (selector_over inner sb2 g2 ctx g2 args w r2 a2
                (or_intror eq_refl) Hsql2) as [-> ->].
    exact (selector_pass raw sb1 g1 ctx r2 a2 w Hg1 Hr2).
  - intros query Hq1 Hq2.
    destruct (selector_pass inner sb2 g2 ctx query args w Hg2 Hq2) as [-> ->].
    exact (selector_pass raw sb1 g1 ctx query args w Hg1 Hq1).
Qed.

(** X10: wrapping a handle that [Select] has already wrapped does not refine
    its skeleton, the inner one decides: when the inner skeleton renders, a
    query call runs its statement if the outer skeleton renders too and
    returns the outer rendering error, the handle untouched, if not; a
    query-single-row call runs the inner skeleton's statement either way. *)
Theorem inner_skeleton_decides :
  forall (sb1 sb2 : SelectBuilder) (r1 : gostring) (a1 : list value)
         (ctx : Ctx) (query : gostring) (args : list value) (w : World),
    ToSql sb1 = (r1, a1, None) ->
    let h := Selector.Select (Selector.Select raw sb1) sb2 in
    (forall r2 a2,
        ToSql sb2 = (r2, a2, None) ->
        h.(QueryContext) ctx query args w = raw.(QueryContext) ctx r1 a1 w
        /\ h.(QueryRowContext) ctx query args w
           = raw.(QueryRowContext) ctx r1 a1 w)
    /\ (forall q0 a0 e,
           ToSql sb2 = (q0, a0, Some e) ->
           h.(QueryContext) ctx query args w = Return (None, Some e) w
           /\ h.(QueryRowContext) ctx query args w
              = raw.(QueryRowContext) ctx r1 a1 w).
Proof.
  intros sb1 sb2 r1 a1 ctx query args w Hsql1 h. subst h.
  unfold Selector.Select. set (inner := Selector.SelectForQuery raw [] sb1).
  split.
  - intros r2 a2 Hsql2.
    destruct (selector_over inner sb2 [] ctx query args w r2 a2
                (or_introl eq_refl) Hsql2) as [-> ->].
    exact (selector_over raw sb1 [] ctx r2 a2 w r1 a1
             (or_introl eq_refl) Hsql1).
  - intros q0 a0 e Hsql2.
    destruct (render_failure inner sb2 [] ctx query args w q0 a0 e Hsql2
                (or_introl eq_refl)) as [-> ->].
    split; [reflexivity|].
    exact (proj2 (selector_over raw sb1 [] ctx query args w r1 a1
                    (or_introl eq_refl) Hsql1)).
Qed.
End InterceptorMore.

(** * More about the entry points *)

Section TutorialMore.
Context `{Driver}.
Import Db Tutorial.

Variables User UserPost : Type.
Variable zeroUser : User.
Variable zeroUserPost : UserPost.
Variable Queries_ListUsers :
  DBTX -> Ctx -> World -> outcome World (list User * error).
Variable Queries_ListUserPosts :
  DBTX -> Ctx -> World -> outcome World (list UserPost * error).

(** X11: [FindUser] and [FindUserPost] hand a list error back unchanged with
    the zero value, whatever rows came with it; without an error they return
    the first row and drop the others; a panic of the list call is theirs. *)
Theorem Find_other_outcomes :
  forall (ctx : Ctx) (db : DBTX) (fn : option customization) (st : pstate),
    let listed := ListUsers Queries_ListUsers ctx db (Some (capOne fn)) st in
    let listedPosts :=
      ListUserPosts Queries_ListUserPosts ctx db (Some (capOne fn)) st in
    let found := FindUser zeroUser Queries_ListUsers ctx db fn st in
    let foundPost :=
      FindUserPost zeroUserPost Queries_ListUserPosts ctx db fn st in
    ((forall users e st', listed = Return (users, Some e) st' ->
                          found = Return (zeroUser, Some e) st')
     /\ (forall u more st', listed = Return (u :: more, None) st' ->
                            found = Return (u, None) st')
     /\ (forall e st', listed = Panic e st' -> found = Panic e st'))
    /\ ((forall posts e st', listedPosts = Return (posts, Some e) st' ->
                             foundPost = Return (zeroUserPost, Some e) st')
        /\ (forall p more st', listedPosts = Return (p :: more, None) st' ->
                               foundPost = Return (p, None) st')
        /\ (forall e st', listedPosts = Panic e st' ->
                          foundPost = Panic e st')).
Proof.
  intros ctx db fn st listed listedPosts found foundPost.
  subst listed listedPosts found foundPost.
  split; repeat split; intros;
    unfold FindUser, FindUserPost, bind;
    match goal with Hl : _ = _ |- _ => rewrite Hl end; reflexivity.
Qed.

(** X12: when the generated routine issues its one query call with the
    canonical statement, [ListUsers] makes the wrapped handle run the
    statement and the arguments the customized skeleton renders to, never
    the canonical statement; when the skeleton does not render the handle is
    not called and the routine is given the rendering error. *)
Theorem ListUsers_runs_rendered_statement :
  forall (listUsers : gostring)
         (decode : outcome World (option Rows * error)
                   -> outcome World (list User * error)),
    (forall db ctx w,
        Queries_ListUsers db ctx w
        = decode (db.(QueryContext) ctx listUsers [] w)) ->
    forall (ctx : Ctx) (raw : DBTX) (fn : option customization) (st : pstate),
      ListUsers Queries_ListUsers ctx raw fn st
      = outside
          (sb <- applyFn fn (listUsersBuilder (fst st)) ;;
           fun w =>
             decode
               match ToSql sb with
               | (rendered, renderedArgs, None) =>
                   raw.(QueryContext) ctx rendered renderedArgs w
               | (_, _, Some e) => Return (None, Some e) w
               end) st.
Proof.
  intros listUsers decode Hgen ctx raw fn st.
  rewrite ListUsers_unfold. unfold outside, bind.
  destruct (applyFn fn (listUsersBuilder (fst st)) (snd st)) as [sb w|e w];
    [|reflexivity].
  rewrite Hgen. simpl. unfold Selector.QueryContext.
  rewrite passes_false by (left; reflexivity). simpl.
  destruct (ToSql sb) as [[rendered renderedArgs] [e|]]; reflexivity.
Qed.
End TutorialMore.

(** * From a canonical statement to the rendered skeleton *)

Section RenderFacts.
Import Strings Builder Canonical.

Lemma appendToSql_more (cols : list gostring) (sep sql : gostring)
      (args : list value) :
  Forall (fun col => col <> []) cols ->
  appendToSql (map Squirrel.plain cols) false sep sql args
  = (sql ++ concat (map (fun col => sep ++ col) cols), args, None).
Proof.
  intros Hcols. revert sql. induction Hcols as [|col cols Hcol _ IH];
    intros sql.
  - simpl. rewrite app_nil_r. reflexivity.
  - cbn [map appendToSql Squirrel.plain concat]. unfold gostring_eqb.
    destruct (list_eq_dec ascii_dec col []) as [->|_]; [contradiction|].
    rewrite app_nil_r, IH, <- !app_assoc. reflexivity.
Qed.

Lemma Join_concat (col : gostring) (cols : list gostring) (sep : gostring) :
  Join (col :: cols) sep = col ++ concat (map (fun x => sep ++ x) cols).
Proof.
  revert col. induction cols as [|x cols IH]; intros col.
  - simpl. symmetry. apply app_nil_r.
  - change (Join (col :: x :: cols) sep) with (col ++ sep ++ Join (x :: cols) sep).
    rewrite IH. cbn [map concat]. rewrite <- !app_assoc. reflexivity.
Qed.

Lemma appendToSql_first (col : gostring) (cols : list gostring)
      (sep sql : gostring) (args : list value) :
  Forall (fun x => x <> []) (col :: cols) ->
  appendToSql (map Squirrel.plain (col :: cols)) true sep sql args
  = (sql ++ Join (col :: cols) sep, args, None).
Proof.
  intros Hall. inversion Hall as [|? ? Hcol Hcols]; subst.
  cbn [map appendToSql Squirrel.plain]. unfold gostring_eqb.
  destruct (list_eq_dec ascii_dec col []) as [->|_]; [contradiction|].
  rewrite app_nil_r, (appendToSql_more _ _ _ _ Hcols), Join_concat.
  cbn [app]. rewrite <- !app_assoc. reflexivity.
Qed.

Lemma identifier_nonempty (x : gostring) : identifier x = true -> x <> [].
Proof.
  intros Hx ->. discriminate Hx.
Qed.

Lemma columns_nonempty (c : statement) :
  wellFormed c = true -> Forall (fun x => x <> []) (columns c).
Proof.
  intros Hwf.
  destruct (wellFormed_inv c Hwf) as (_&_&_&_& Hfirst & Hmore &_).
  unfold columns. constructor.
  - apply identifier_nonempty. apply (columnName_inv _ Hfirst).
  - apply Forall_forall. intros x Hx. apply in_map_iff in Hx.
    destruct Hx as ([[before after] col] & <- & Hin).
    rewrite forallb_forall in Hmore. specialize (Hmore _ Hin).
    simpl in Hmore. apply andb_true_iff in Hmore. destruct Hmore as [_ Hcol].
    apply identifier_nonempty. apply (columnName_inv _ Hcol).
Qed.

(** The statement text up to the table, as the builder writes it; the
    stages after it are those of [ToSql]. *)
Lemma ToSql_select_from (col : gostring) (cols : list gostring)
      (t : gostring) (wheres : list Sqlizer) (orders : list gostring)
      (limit : option N) :
  Forall (fun x => x <> []) (col :: cols) -> t <> [] ->
  ToSql {| Columns := col :: cols; FromPart := Some t; WhereParts := wheres;
           OrderByParts := orders; LimitPart := limit |}
  = let sql := str "SELECT " ++ Join (col :: cols) (str ", ")
                   ++ str " FROM " ++ t in
    let '(sql, args, err) :=
      if 0 <? length wheres then
        appendToSql (map partToSql wheres) true
                    (str " AND ") (sql ++ str " WHERE ") []
      else (sql, [], None) in
    match err with
    | Some e => ([], args, Some e)
    | None =>
        let '(sql, args, err) :=
          if 0 <? length orders then
            appendToSql (map Squirrel.plain orders) true
                        (str ", ") (sql ++ str " ORDER BY ") args
          else (sql, args, None) in
        match err with
        | Some e => ([], args, Some e)
        | None =>
            match limit with
            | Some n => (sql ++ str " LIMIT " ++ decimal n, args, None)
            | None => (sql, args, None)
            end
        end
    end.
Proof.
  intros Hcols Ht. unfold ToSql.
  cbn [Columns FromPart WhereParts OrderByParts LimitPart].
  change (length (col :: cols) =? 0) with false. cbv iota.
  rewrite (appendToSql_first _ _ _ _ _ Hcols). cbv iota beta zeta.
  cbn [appendToSql Squirrel.plain]. unfold gostring_eqb at 1.
  destruct (list_eq_dec ascii_dec t []) as [->|_]; [contradiction|].
  cbn [app]. rewrite <- !app_assoc. reflexivity.
Qed.

(** From here on: [ls] are the lines of a statement whose comments stay on
    their line, and without them it is the canonical statement [c]. *)
Variable ls : list line.
Variable c : statement.
Hypothesis Hne : ls <> [].
Hypothesis Hls : forallb lineOk ls = true.
Hypothesis Hplain : Canonical.plain ls = text c.
Hypothesis Hwf : wellFormed c = true.

Lemma skeleton_of_canonical :
  SelectBuilderFromStmt (source ls)
  = {| Columns := c.(firstColumn) :: map (fun x => snd x) c.(moreColumns);
       FromPart := Some c.(table); WhereParts := [];
       OrderByParts := []; LimitPart := None |}.
Proof.
  unfold SelectBuilderFromStmt.
  rewrite (Parse_canonical_text (source ls) c Hwf).
  - reflexivity.
  - rewrite (stripComments_source _ Hne Hls). exact Hplain.
Qed.

Lemma table_nonempty : c.(table) <> [].
Proof.
  destruct (wellFormed_inv c Hwf) as (_&_&_&_&_&_&_&_&_&_&_& Htable &_).
  apply identifier_nonempty. exact Htable.
Qed.
End RenderFacts.

Section RenderedStatements.
Import Strings Builder Canonical.

Lemma rendered_plain_form :
  forall (ls : list line) (c : statement),
    ls <> [] -> forallb lineOk ls = true ->
    Canonical.plain ls = text c -> wellFormed c = true ->
    ToSql (SelectBuilderFromStmt (source ls))
    = (str "SELECT " ++ Join (columns c) (str ", ")
         ++ str " FROM " ++ c.(table), [], None).
Proof.
  intros ls c Hne Hls Hplain Hwf.
  rewrite (skeleton_of_canonical ls c Hne Hls Hplain Hwf).
  rewrite (ToSql_select_from _ _ _ _ _ _ (columns_nonempty c Hwf)
             (table_nonempty c Hwf)).
  reflexivity.
Qed.

(** X13: the skeleton built from a canonical statement (with whatever
    comments that stay on their line) renders to the statement in plain
    form: [SELECT], the columns in source order separated by a comma and a
    space, [FROM], the table; no arguments, no error. *)
Theorem skeleton_renders_canonical_statement :
  forall (ls : list line) (c : statement),
    ls <> [] -> forallb lineOk ls = true ->
    Canonical.plain ls = text c -> wellFormed c = true ->
    ToSql (SelectBuilderFromStmt (source ls))
    = (str "SELECT " ++ Join (columns c) (str ", ")
         ++ str " FROM " ++ c.(table), [], None).
Proof.
  exact rendered_plain_form.
Qed.

(** X14: on a canonical statement, the package-level skeleton of
    [ListUsers] renders to the plain statement with the soft-delete filter
    and the cap of 500 rows, and the customization of the example program
    turns that into the filter on age, the ordering and the cap of 10 rows,
    with 18 as the one argument. *)
Theorem base_and_example_statements :
  forall (ls : list line) (c : statement) (other : gostring),
    ls <> [] -> forallb lineOk ls = true ->
    Canonical.plain ls = text c -> wellFormed c = true ->
    let base := Tutorial.listUsersBuilder (Tutorial.init (source ls) other) in
    let plainText := str "SELECT " ++ Join (columns c) (str ", ")
                         ++ str " FROM " ++ c.(table) in
    ToSql base
    = (plainText ++ str " WHERE deleted_at IS NULL LIMIT 500", [], None)
    /\ ToSql (Example.adults base)
       = (plainText
            ++ str " WHERE deleted_at IS NULL AND age >= ? ORDER BY created_at DESC LIMIT 10",
          [Int 18], None).
Proof.
  intros ls c other Hne Hls Hplain Hwf base plainText. subst base.
  unfold Example.adults, Tutorial.init.
  cbn [Tutorial.listUsersBuilder].
  rewrite (skeleton_of_canonical ls c Hne Hls Hplain Hwf).
  unfold Limit, OrderBy, Where.
  cbn [Columns FromPart WhereParts OrderByParts LimitPart app].
  rewrite !(ToSql_select_from _ _ _ _ _ _ (columns_nonempty c Hwf)
              (table_nonempty c Hwf)).
  fold (columns c). fold plainText. cbv zeta.
  split.
  - simpl. rewrite <- !app_assoc. reflexivity.
  - simpl. rewrite <- !app_assoc. reflexivity.
Qed.
Lemma forallb_Join (p : ascii -> bool) (lines : list gostring)
      (sep : gostring) :
  Forall (fun l => forallb p l = true) lines -> forallb p sep = true ->
  forallb p (Join lines sep) = true.
Proof.
  intros Hall Hsep. induction Hall as [|l lines Hl Hall IH]; [reflexivity|].
  destruct lines as [|l' lines]; [exact Hl|].
  change (Join (l :: l' :: lines) sep) with (l ++ sep ++ Join (l' :: lines) sep).
  rewrite !forallb_app, Hl, Hsep, IH. reflexivity.
Qed.

Lemma forallb_weaken (p q : ascii -> bool) (x : gostring) :
  (forall b, p b = true -> q b = true) ->
  forallb p x = true -> forallb q x = true.
Proof.
  intros Hpq Hx. apply forallb_forall. intros b Hb.
  rewrite forallb_forall in Hx. auto.
Qed.

Lemma plainByte_noMarker (b : ascii) : plainByte b = true -> noMarker b = true.
Proof.
  intros Hb. destruct (plainByte_inv _ Hb) as (_ & Hs & Hd & _).
  unfold noMarker. rewrite Hs, Hd. reflexivity.
Qed.

Lemma bare_plain (l : line) :
  lineOk l = true -> forallb plainByte (bare l) = true.
Proof.
  intros Hl. unfold lineOk in Hl.
  apply andb_true_iff in Hl. destruct Hl as [Hl _].
  apply andb_true_iff in Hl. destruct Hl as [Hps Hend].
  unfold bare. rewrite forallb_app, Hend, andb_true_r.
  clear Hend. induction l.(pieces) as [|[x body] ps IH]; [reflexivity|].
  simpl in Hps. apply andb_true_iff in Hps. destruct Hps as [Hp Hps].
  unfold pieceOk in Hp. simpl in Hp. apply andb_true_iff in Hp.
  cbn [map concat fst]. rewrite forallb_app, (IH Hps).
  destruct Hp as [-> _]. reflexivity.
Qed.

Lemma plain_noMarker (ls : list line) :
  forallb lineOk ls = true -> forallb noMarker (Canonical.plain ls) = true.
Proof.
  intros Hls. unfold Canonical.plain. apply forallb_Join; [|reflexivity].
  apply Forall_forall. intros x Hx. apply in_map_iff in Hx.
  destruct Hx as (l & <- & Hl). rewrite forallb_forall in Hls.
  apply (forallb_weaken plainByte); [exact plainByte_noMarker|].
  apply bare_plain. auto.
Qed.

(** X15: comments that stay on their line never change what [Parse]
    returns, for any statement, matching or not: with them and without them
    the table and the columns are the same. *)
Theorem Parse_ignores_one_line_comments :
  forall ls : list line,
    ls <> [] -> forallb lineOk ls = true ->
    Parse (source ls) = Parse (Canonical.plain ls).
Proof.
  intros ls Hne Hls. unfold Parse.
  rewrite (stripComments_source ls Hne Hls).
  rewrite (stripComments_identity _ (plain_noMarker ls Hls)).
  reflexivity.
Qed.

Lemma space_noMarker (b : ascii) : Regexp.space b = true -> noMarker b = true.
Proof.
  intros Hb. apply space_codes in Hb. unfold noMarker, byte_is.
  apply negb_true_iff, orb_false_iff. split; apply Nat.eqb_neq; lia.
Qed.

Lemma identByte_noMarker (b : ascii) : identByte b = true -> noMarker b = true.
Proof.
  intros Hb. apply identByte_codes in Hb. unfold noMarker, byte_is.
  apply negb_true_iff, orb_false_iff. split; apply Nat.eqb_neq; lia.
Qed.

Lemma normalForm_wellFormed (c : statement) :
  wellFormed c = true -> wellFormed (normalForm c) = true.
Proof.
  intros Hwf.
  destruct (wellFormed_inv c Hwf)
    as (_&_&_&_& Hfirst & Hmore &_&_&_&_&_& Htable &_).
  unfold wellFormed, normalForm.
  cbn [lead selectWord gap1 firstColumn moreColumns gap2 fromWord gap3
       table tail].
  rewrite Hfirst, Htable.
  assert (Hmore' : forallb nextColumnOk
                     (map (fun x => ([], [SP], snd x)) c.(moreColumns)) = true).
  { apply forallb_forall. intros x Hx. apply in_map_iff in Hx.
    destruct Hx as ([[before after] col] & <- & Hin).
    rewrite forallb_forall in Hmore. specialize (Hmore _ Hin).
    simpl in Hmore. apply andb_true_iff in Hmore. destruct Hmore as [_ Hcol].
    simpl. exact Hcol. }
  rewrite Hmore'. reflexivity.
Qed.

Lemma normalForm_columns (c : statement) :
  columns (normalForm c) = columns c.
Proof.
  unfold columns, normalForm. cbn [firstColumn moreColumns].
  rewrite map_map. reflexivity.
Qed.

Lemma normalForm_text (c : statement) :
  text (normalForm c)
  = str "SELECT " ++ Join (columns c) (str ", ") ++ str " FROM " ++ c.(table).
Proof.
  unfold text, columnsText, tableText, normalForm, columns.
  cbn [lead selectWord gap1 firstColumn moreColumns gap2 fromWord gap3
       table tail].
  rewrite Join_concat, !map_map, app_nil_r.
  assert (Hmore : forall more : list (gostring * gostring * gostring),
             concat (map (fun x => nextColumn ([], [SP], snd x)) more)
             = concat (map (fun x => str ", " ++ snd x) more)).
  { intros more. reflexivity. }
  rewrite Hmore. cbn [app str list_ascii_of_string].
  rewrite <- !app_assoc. reflexivity.
Qed.

Lemma normalForm_noMarker (c : statement) :
  wellFormed c = true -> forallb noMarker (text (normalForm c)) = true.
Proof.
  intros Hwf.
  destruct (wellFormed_inv c Hwf)
    as (_&_&_&_& Hfirst & Hmore &_&_&_&_&_& Htable &_).
  destruct (columnName_inv _ Hfirst) as [Hid _].
  rewrite normalForm_text, !forallb_app.
  assert (Hcols : forallb noMarker (Join (columns c) (str ", ")) = true).
  { apply forallb_Join; [|reflexivity]. unfold columns. constructor.
    - apply (forallb_weaken identByte); [exact identByte_noMarker|].
      apply identifier_bytes. exact Hid.
    - apply Forall_forall. intros x Hx. apply in_map_iff in Hx.
      destruct Hx as ([[before after] col] & <- & Hin).
      rewrite forallb_forall in Hmore. specialize (Hmore _ Hin).
      simpl in Hmore. apply andb_true_iff in Hmore. destruct Hmore as [_ Hcol].
      apply (forallb_weaken identByte); [exact identByte_noMarker|].
      apply identifier_bytes. apply (columnName_inv _ Hcol). }
  rewrite Hcols.
  rewrite (forallb_weaken identByte noMarker _ identByte_noMarker
             (identifier_bytes _ Htable)).
  reflexivity.
Qed.

(** X16: building the skeleton loses nothing of a canonical statement: the
    statement the skeleton renders to parses back to the same table and the
    same columns. *)
Theorem rendered_statement_parses_back :
  forall (ls : list line) (c : statement),
    ls <> [] -> forallb lineOk ls = true ->
    Canonical.plain ls = text c -> wellFormed c = true ->
    Parse (fst (fst (ToSql (SelectBuilderFromStmt (source ls)))))
    = Parse (source ls).
Proof.
  intros ls c Hne Hls Hplain Hwf.
  rewrite (rendered_plain_form ls c Hne Hls Hplain Hwf). cbn [fst].
  rewrite <- normalForm_text.
  rewrite (Parse_canonical_text _ _ (normalForm_wellFormed c Hwf)
             (stripComments_identity _ (normalForm_noMarker c Hwf))).
  rewrite (Parse_canonical_text (source ls) c Hwf).
  - cbn [table normalForm]. rewrite normalForm_columns. reflexivity.
  - rewrite (stripComments_source _ Hne Hls). exact Hplain.
Qed.
End RenderedStatements.

(** * More concrete runs *)

Section MoreRuns.
Import Db Doubles Samples Strings Regexp Builder.

(** Quotes, commas and a semicolon, but no slash and no dash. *)
Lemma stripComments_without_markers_run :
  forallb (fun b => negb (byte_is 47 b || byte_is 45 b)) quotedStmt = true
  /\ stripComments quotedStmt = quotedStmt.
Proof.
  split; [reflexivity|].
  apply stripComments_without_markers. reflexivity.
Defined.

Lemma stripComments_keeps_quoted_dashes_run :
  isQuote SQUOTE
  /\ forallb Canonical.plainByte (str "SELECT ") = true
  /\ forallb Canonical.plainByte (str " FROM t ") = true
  /\ forallb (Canonical.quotedByte SQUOTE) (str "a--b") = true
  /\ forallb Canonical.commentByte (str " note") = true
  /\ stripComments quotedDashes
     = str "SELECT " ++ SQUOTE :: str "a--b" ++ SQUOTE :: str " FROM t ".
Proof.
  assert (Hq : isQuote SQUOTE) by (right; right; reflexivity).
  split; [exact Hq|]. repeat (split; [reflexivity|]).
  exact (stripComments_keeps_quoted_dashes
           (str "SELECT ") (str "a--b") (str " FROM t ") SQUOTE
           (Some (str " note")) Hq eq_refl eq_refl eq_refl eq_refl).
Defined.

Lemma Parse_needs_leading_select_run :
  stripComments withClause = str "  " ++ str "WITH x AS (SELECT 1) SELECT a FROM x"
  /\ Canonical.blank (str "  ") = true
  /\ (space (chr 87) = false /\ fold 115 (chr 87) = false
      /\ byte_is 197 (chr 87) = false)
  /\ Parse withClause = ([], []).
Proof.
  split; [reflexivity|]. split; [reflexivity|].
  split; [repeat split; reflexivity|].
  apply (Parse_needs_leading_select withClause (str "  ")
           (str "WITH x AS (SELECT 1) SELECT a FROM x")).
  - reflexivity.
  - reflexivity.
  - repeat split; reflexivity.
Defined.

Lemma stripComments_removes_one_line_comments_run :
  listUsersLines <> []
  /\ forallb Canonical.lineOk listUsersLines = true
  /\ stripComments (Canonical.source listUsersLines)
     = str "
SELECT id, name, 
email, age, created_at, updated_at FROM users
".
Proof.
  assert (Hne : listUsersLines <> []) by discriminate.
  split; [exact Hne|]. split; [reflexivity|].
  rewrite (stripComments_removes_one_line_comments listUsersLines Hne eq_refl).
  reflexivity.
Defined.

(** One handle, two interceptors, three statements. *)
Lemma stacked_guards_serve_both_run :
  (listUsersGuard <> [] /\ listPostsGuard <> []
   /\ listUsersGuard <> listPostsGuard
   /\ ToSql usersById
      = (str "SELECT * FROM users WHERE id = ?", [Int 10], None)
   /\ ToSql postsByUser
      = (str "SELECT id, title FROM posts WHERE user_id = ?", [Int 3], None)
   /\ str "SELECT id, title FROM posts WHERE user_id = ?" <> listUsersGuard)
  /\ let h := Selector.SelectForQuery
                (Selector.SelectForQuery logHandle listUsersGuard usersById)
                listPostsGuard postsByUser in
     h.(QueryContext) tt listUsersGuard [] []
     = Return (Some [], None)
              [Query (str "SELECT * FROM users WHERE id = ?") [Int 10]]
     /\ h.(QueryContext) tt listPostsGuard [] []
        = Return (Some [], None)
                 [Query (str "SELECT id, title FROM posts WHERE user_id = ?")
                        [Int 3]]
     /\ h.(QueryContext) tt (str "SELECT 1") [] []
        = Return (Some [], None) [Query (str "SELECT 1") []].
Proof.
  split.
  - repeat split; try discriminate; reflexivity.
  - intros h.
    destruct (@stacked_guards_serve_both logDriver logHandle
                listUsersGuard listPostsGuard usersById postsByUser
                _ _ _ _ tt [] []
                ltac:(discriminate) ltac:(discriminate) ltac:(discriminate)
                eq_refl eq_refl ltac:(discriminate))
      as ((Hu & _) & (Hp & _) & Hother).
    destruct (Hother (str "SELECT 1") ltac:(discriminate) ltac:(discriminate))
      as [Ho _].
    subst h. rewrite Hu, Hp, Ho. repeat split; reflexivity.
Defined.

(** The customization of the second wrapper is lost on a wrapped handle. *)
Lemma inner_skeleton_decides_run :
  ToSql usersById = (str "SELECT * FROM users WHERE id = ?", [Int 10], None)
  /\ (Selector.Select (Selector.Select logHandle usersById) postsByUser)
       .(QueryContext) tt listUsersGuard [] []
     = Return (Some [], None)
              [Query (str "SELECT * FROM users WHERE id = ?") [Int 10]]
  /\ (Selector.Select (Selector.Select logHandle usersById) unparsed)
       .(QueryContext) tt listUsersGuard [] []
     = Return (None, Some noColumns) [].
Proof.
  split; [reflexivity|].
  destruct (@inner_skeleton_decides logDriver logHandle usersById postsByUser
              _ _ tt listUsersGuard [] [] eq_refl) as [Hboth _].
  destruct (@inner_skeleton_decides logDriver logHandle usersById unparsed
              _ _ tt listUsersGuard [] [] eq_refl) as [_ Hfail].
  split.
  - rewrite (proj1 (Hboth _ _ eq_refl)). reflexivity.
  - exact (proj1 (Hfail _ _ _ eq_refl)).
Defined.

(** The call of the example program on an empty table: one query, with the
    rendered statement and its argument. *)
Lemma ListUsers_runs_rendered_statement_run :
  (forall db ctx w,
      decodeMany listUsersStmt db ctx w
      = decodeOutcome (db.(QueryContext) ctx listUsersStmt [] w))
  /\ Tutorial.ListUsers (decodeMany listUsersStmt) tt logHandle
                        (Some adultsFn) usersState
     = Return ([], None)
              (fst usersState,
               [Query (str "SELECT id, name, email, age, created_at, updated_at FROM users WHERE deleted_at IS NULL AND age >= ? ORDER BY created_at DESC LIMIT 10")
                      [Int 18]]).
Proof.
  assert (Hgen : forall db ctx w,
             decodeMany listUsersStmt db ctx w
             = decodeOutcome (db.(QueryContext) ctx listUsersStmt [] w)).
  { intros db ctx w. unfold decodeMany, bind, decodeOutcome.
    destruct (db.(QueryContext) ctx listUsersStmt [] w)
      as [[[rows|] [e|]] w'|e w']; reflexivity. }
  split; [exact Hgen|].
  rewrite (@ListUsers_runs_rendered_statement logDriver nat
             (decodeMany listUsersStmt) listUsersStmt decodeOutcome Hgen
             tt logHandle (Some adultsFn) usersState).
  reflexivity.
Defined.

Lemma skeleton_renders_canonical_statement_run :
  listUsersLines <> []
  /\ forallb Canonical.lineOk listUsersLines = true
  /\ Canonical.plain listUsersLines = Canonical.text listUsersCanonical
  /\ Canonical.wellFormed listUsersCanonical = true
  /\ ToSql (SelectBuilderFromStmt (Canonical.source listUsersLines))
     = (str "SELECT id, name, email, age, created_at, updated_at FROM users",
        [], None).
Proof.
  assert (Hne : listUsersLines <> []) by discriminate.
  split; [exact Hne|]. repeat (split; [reflexivity|]).
  rewrite (skeleton_renders_canonical_statement listUsersLines
             listUsersCanonical Hne eq_refl eq_refl eq_refl).
  reflexivity.
Defined.

Lemma base_and_example_statements_run :
  listUsersLines <> []
  /\ forallb Canonical.lineOk listUsersLines = true
  /\ Canonical.plain listUsersLines = Canonical.text listUsersCanonical
  /\ Canonical.wellFormed listUsersCanonical = true
  /\ ToSql (Tutorial.listUsersBuilder
              (Tutorial.init (Canonical.source listUsersLines) []))
     = (str "SELECT id, name, email, age, created_at, updated_at FROM users WHERE deleted_at IS NULL LIMIT 500",
        [], None).
Proof.
  assert (Hne : listUsersLines <> []) by discriminate.
  split; [exact Hne|]. repeat (split; [reflexivity|]).
  rewrite (proj1 (base_and_example_statements listUsersLines
                    listUsersCanonical [] Hne eq_refl eq_refl eq_refl)).
  reflexivity.
Defined.
Lemma Parse_ignores_one_line_comments_run :
  listUsersLines <> []
  /\ forallb Canonical.lineOk listUsersLines = true
  /\ Parse (Canonical.source listUsersLines)
     = Parse (str "
SELECT id, name, 
email, age, created_at, updated_at FROM users
").
Proof.
  assert (Hne : listUsersLines <> []) by discriminate.
  split; [exact Hne|]. split; [reflexivity|].
  pose proof (Parse_ignores_one_line_comments listUsersLines Hne eq_refl)
    as Hsame.
  assert (Hplain : Canonical.plain listUsersLines = str "
SELECT id, name, 
email, age, created_at, updated_at FROM users
") by (vm_compute; reflexivity).
  rewrite Hplain in Hsame. exact Hsame.
Defined.

Lemma rendered_statement_parses_back_run :
  listUsersLines <> []
  /\ forallb Canonical.lineOk listUsersLines = true
  /\ Canonical.plain listUsersLines = Canonical.text listUsersCanonical
  /\ Canonical.wellFormed listUsersCanonical = true
  /\ Parse (str "SELECT id, name, email, age, created_at, updated_at FROM users")
     = Parse (Canonical.source listUsersLines).
Proof.
  assert (Hne : listUsersLines <> []) by discriminate.
  split; [exact Hne|]. do 3 (split; [reflexivity|]).
  pose proof (rendered_statement_parses_back listUsersLines
                listUsersCanonical Hne eq_refl eq_refl eq_refl) as Hback.
  assert (Hsql : fst (fst (ToSql (SelectBuilderFromStmt
                                    (Canonical.source listUsersLines))))
                 = str "SELECT id, name, email, age, created_at, updated_at FROM users")
    by (vm_compute; reflexivity).
  rewrite Hsql in Hback. exact Hback.
Defined.
End MoreRuns.
